(** * Signal-collection probes of the privacy panel (src/utils/privacy.ts)

    A shallow embedding of the probes of [privacy.ts] and the properties the
    specification states about them.  Every probe is translated from the
    TypeScript source:

    - a JavaScript string is a sequence of UTF-16 code units; strings the
      code builds from ASCII literals are Rocq strings;
    - a 32-bit integer is a [Z] with its wrap-around written out ([ToInt32]);
    - an [async] function is a program in a small monad that records the
      events it performs (DOM operations and suspension points) and may
      complete by throwing;
    - the browser (network, DOM, canvas, ICE agent) is an explicit
      environment the probe is run against. *)

From Stdlib Require Import ZArith QArith Qround Lia Lqa Ascii String.
From stdpp Require Import base list strings sorting.

Local Open Scope string_scope.
Local Open Scope list_scope.
Local Open Scope Z_scope.

(** ** The hash primitive: [hashString] *)

Module Hash.

(** [ToInt32] of ECMAScript on an integral number: the representative of
    [x] modulo 2^32 in the signed range. *)
Definition ToInt32 (x : Z) : Z := (x + 2^31) mod 2^32 - 2^31.

(** [a << n] : both operands converted, the count masked to five bits. *)
Definition js_shl (a n : Z) : Z := ToInt32 (Z.shiftl (ToInt32 a) (Z.land n 31)).

(** [a & b]. *)
Definition js_and (a b : Z) : Z := ToInt32 (Z.land (ToInt32 a) (ToInt32 b)).

(** One turn of the loop body:
    [hash = ((hash << 5) - hash) + char; hash = hash & hash].  The
    subtraction and the addition are arithmetic on numbers (exact here,
    see [hash_step_exact]). *)
Definition hash_step (hash char : Z) : Z :=
  let hash := (js_shl hash 5 - hash) + char in
  js_and hash hash.

(** [for (let i = 0; i < str.length; i++)] over the code units
    [str.charCodeAt(i)], starting from [hash]. *)
Fixpoint hash_loop (hash : Z) (str : list Z) : Z :=
  match str with
  | [] => hash
  | char :: rest => hash_loop (hash_step hash char) rest
  end.

Definition hex_digit (d : Z) : ascii :=
  match d with
  | 0 => "0" | 1 => "1" | 2 => "2" | 3 => "3" | 4 => "4" | 5 => "5"
  | 6 => "6" | 7 => "7" | 8 => "8" | 9 => "9" | 10 => "a" | 11 => "b"
  | 12 => "c" | 13 => "d" | 14 => "e" | _ => "f"
  end%char.

(** The digits of [n] in radix 16, most significant first, in front of
    [acc]; [fuel] bounds the number of digits. *)
Fixpoint digits16 (fuel : nat) (n : Z) (acc : string) : string :=
  match fuel with
  | O => acc
  | S fuel' =>
      let acc' := String (hex_digit (n mod 16)) acc in
      if n / 16 =? 0 then acc' else digits16 fuel' (n / 16) acc'
  end.

(** [Number.prototype.toString(16)] on an integral number. *)
Definition toString16 (n : Z) : string :=
  if n <? 0
  then String "-"%char (digits16 (S (Z.to_nat (Z.log2 (- n)))) (- n) "")
  else digits16 (S (Z.to_nat (Z.log2 n))) n "".

(** [hashString(str)]: [Math.abs(hash).toString(16)] after the loop. *)
Definition hashString (str : list Z) : string :=
  toString16 (Z.abs (hash_loop 0 str)).

(** The code units of an ASCII (Latin-1) literal. *)
Definition units (s : string) : list Z :=
  map (fun c => Z.of_N (N_of_ascii c)) (list_ascii_of_string s).

(** The hash as the specification words it: accumulate
    [hash*31 + charCode], truncated to the 32-bit signed range at each
    step. *)
Definition wrap_int32 (x : Z) : Z :=
  let m := x mod 2^32 in if m <? 2^31 then m else m - 2^32.

Definition spec_fold (str : list Z) : Z :=
  fold_left (fun hash c => wrap_int32 (hash * 31 + c)) str 0.

(** Reading a lowercase hexadecimal numeral back. *)
Definition hex_value_of (c : ascii) : option Z :=
  let n := Z.of_N (N_of_ascii c) in
  if (48 <=? n) && (n <=? 57) then Some (n - 48)
  else if (97 <=? n) && (n <=? 102) then Some (n - 87)
  else None.

Fixpoint hex_value_from (acc : Z) (s : string) : option Z :=
  match s with
  | EmptyString => Some acc
  | String c rest =>
      match hex_value_of c with
      | Some d => hex_value_from (acc * 16 + d) rest
      | None => None
      end
  end.

Definition hex_value (s : string) : option Z :=
  match s with
  | EmptyString => None
  | _ => hex_value_from 0 s
  end.

End Hash.

(** ** Asynchronous programs *)

Module Async.

(** How a piece of code completes. *)
Inductive completion (A : Type) : Type :=
| Normal (a : A)
| Thrown.
Arguments Normal {A} a.
Arguments Thrown {A}.

(** What an [await] is suspended on. *)
Inductive pending : Type :=
| PFetch (url : string)      (* the promise of [fetch(url, ...)] *)
| PBody (url : string)       (* the promise of [response.json()] *)
| PTimer (ms : Z).           (* a promise resolved by [setTimeout(resolve, ms)] *)

(** What a probe does that the rest of the page can observe. *)
Inductive event : Type :=
| Suspend (p : pending)      (* the task yields to the event loop *)
| AppendBait                 (* [document.body.appendChild(bait)] *)
| InspectBait                (* reading the bait's layout *)
| RemoveBait.                (* [document.body.removeChild(bait)] *)

(** A program: the events it performed, in order, and its completion. *)
Definition prog (A : Type) : Type := (list event * completion A)%type.

Definition ret {A} (a : A) : prog A := ([], Normal a).
Definition throw {A} : prog A := ([], Thrown).
Definition perform (e : event) : prog unit := ([e], Normal tt).

Definition bind {A B} (m : prog A) (k : A -> prog B) : prog B :=
  match m with
  | (t, Normal a) => let '(t', r) := k a in (t ++ t', r)
  | (t, Thrown) => (t, Thrown)
  end.

(** [try { m } catch { handler }]. *)
Definition try_catch {A} (m : prog A) (handler : prog A) : prog A :=
  match m with
  | (t, Normal a) => (t, Normal a)
  | (t, Thrown) => let '(t', r) := handler in (t ++ t', r)
  end.

Definition trace {A} (m : prog A) : list event := fst m.
Definition outcome {A} (m : prog A) : completion A := snd m.

Declare Scope prog_scope.
Delimit Scope prog_scope with prog.
Notation "'do' x <- m ; k" := (bind m (fun x => k))
  (at level 10, x name, m at level 100, k at level 200, only parsing) : prog_scope.
Notation "'exec' m ; k" := (bind m (fun _ => k))
  (at level 10, m at level 100, k at level 200, only parsing) : prog_scope.

End Async.

(** ** JavaScript values, as far as the probes look at them *)

Module Js.
Import Async.
Local Open Scope prog_scope.

(** A number: a finite double is a rational; [-0] is not told apart from
    [0] (both are falsy and equal). *)
Inductive jsnum : Type :=
| Finite (q : Q)
| PosInfinity
| NegInfinity
| NaN.

(** The values [JSON.parse] produces, and [undefined]. *)
#[local] Unset Elimination Schemes.
Inductive jsval : Type :=
| VUndefined
| VNull
| VBool (b : bool)
| VNum (n : jsnum)
| VStr (s : string)
| VArr (items : list jsval)
| VObj (props : list (string * jsval)).
#[local] Set Elimination Schemes.

Definition num_truthy (n : jsnum) : bool :=
  match n with
  | Finite q => negb (Qeq_bool q 0)
  | PosInfinity | NegInfinity => true
  | NaN => false
  end.

(** ToBoolean. *)
Definition truthy (v : jsval) : bool :=
  match v with
  | VUndefined | VNull => false
  | VBool b => b
  | VNum n => num_truthy n
  | VStr s => negb (String.eqb s "")
  | VArr _ | VObj _ => true
  end.

(** [a || b]. *)
Definition js_or (a b : jsval) : jsval := if truthy a then a else b.

(** [n !== m] on numbers. *)
Definition num_strict_neq (n m : jsnum) : bool :=
  match n, m with
  | Finite p, Finite q => negb (Qeq_bool p q)
  | PosInfinity, PosInfinity | NegInfinity, NegInfinity => false
  | _, _ => true
  end.

(** [v !== 'lit'] against a string literal. *)
Definition strict_neq_str (v : jsval) (lit : string) : bool :=
  match v with
  | VStr s => negb (String.eqb s lit)
  | _ => true
  end.

Fixpoint own_prop (props : list (string * jsval)) (key : string) : jsval :=
  match props with
  | [] => VUndefined
  | (k, v) :: rest => if String.eqb k key then v else own_prop rest key
  end.

(** [v.key] for a key that no prototype defines (all keys read by the
    probes are such): a TypeError on [null] and [undefined], the own
    property of an object, [undefined] on anything else. *)
Definition get (v : jsval) (key : string) : prog jsval :=
  match v with
  | VUndefined | VNull => throw
  | VObj props => ret (own_prop props key)
  | _ => ret VUndefined
  end.

(** [v?.key]. *)
Definition get_opt (v : jsval) (key : string) : prog jsval :=
  match v with
  | VUndefined | VNull => ret VUndefined
  | _ => get v key
  end.

End Js.

(** ** The network *)

Module Net.
Import Async Js.
Local Open Scope prog_scope.

(** A response: its [ok] flag and what [response.json()] resolves to
    ([None]: the body is not JSON and the promise rejects). *)
Record response : Type := { ok : bool; body : option jsval }.

Inductive fetch_outcome : Type :=
| NetworkError
| Responds (r : response).

(** The network as one run of a probe sees it: every URL is requested at
    most once. *)
Definition network : Type := string -> fetch_outcome.

(** [await fetch(url, ...)]. *)
Definition fetch (net : network) (url : string) : prog response :=
  exec perform (Suspend (PFetch url));
  match net url with
  | NetworkError => throw
  | Responds r => ret r
  end.

(** [await response.json()] for the response obtained from [url]. *)
Definition json (url : string) (r : response) : prog jsval :=
  exec perform (Suspend (PBody url));
  match body r with
  | None => throw
  | Some v => ret v
  end.

End Net.

(** ** The geolocation probe: [getIPInfo] *)

Module GeoIP.
Import Async Js Net.
Local Open Scope prog_scope.

(** The record the probe returns.  The source declares the fields as
    strings and numbers, but the casts are erased: a field holds whatever
    value the provider sent. *)
Record IPInfo : Type := {
  ip : jsval; city : jsval; country : jsval; region : jsval;
  isp : jsval; timezone : jsval; latitude : jsval; longitude : jsval }.

Record api : Type := { url : string; parse : jsval -> prog IPInfo }.

Definition Unknown : jsval := VStr "Unknown".
Definition zero : jsval := VNum (Finite 0).

Definition parse_ipapi (data : jsval) : prog IPInfo :=
  do d_ip <- get data "ip";
  do d_city <- get data "city";
  do d_country <- get data "country_name";
  do d_region <- get data "region";
  do d_org <- get data "org";
  do d_timezone <- get data "timezone";
  do d_latitude <- get data "latitude";
  do d_longitude <- get data "longitude";
  ret {| ip := js_or d_ip Unknown;
         city := js_or d_city Unknown;
         country := js_or d_country Unknown;
         region := js_or d_region Unknown;
         isp := js_or d_org Unknown;
         timezone := js_or d_timezone Unknown;
         latitude := js_or d_latitude zero;
         longitude := js_or d_longitude zero |}.

Definition parse_freeipapi (data : jsval) : prog IPInfo :=
  do d_ip <- get data "ipAddress";
  do d_city <- get data "cityName";
  do d_country <- get data "countryName";
  do d_region <- get data "regionName";
  do d_proxy <- get data "isProxy";
  do d_timezone <- get data "timeZone";
  do d_latitude <- get data "latitude";
  do d_longitude <- get data "longitude";
  ret {| ip := js_or d_ip Unknown;
         city := js_or d_city Unknown;
         country := js_or d_country Unknown;
         region := js_or d_region Unknown;
         isp := if truthy d_proxy then VStr "Proxy/VPN Detected" else Unknown;
         timezone := js_or d_timezone Unknown;
         latitude := js_or d_latitude zero;
         longitude := js_or d_longitude zero |}.

Definition parse_ipwho (data : jsval) : prog IPInfo :=
  do d_ip <- get data "ip";
  do d_city <- get data "city";
  do d_country <- get data "country";
  do d_region <- get data "region";
  do d_connection <- get data "connection";
  do d_isp <- get_opt d_connection "isp";
  do d_tz <- get data "timezone";
  do d_tzid <- get_opt d_tz "id";
  do d_latitude <- get data "latitude";
  do d_longitude <- get data "longitude";
  ret {| ip := js_or d_ip Unknown;
         city := js_or d_city Unknown;
         country := js_or d_country Unknown;
         region := js_or d_region Unknown;
         isp := js_or d_isp Unknown;
         timezone := js_or d_tzid Unknown;
         latitude := js_or d_latitude zero;
         longitude := js_or d_longitude zero |}.

Definition ipapi : api :=
  {| url := "https://ipapi.co/json/"; parse := parse_ipapi |}.
Definition freeipapi : api :=
  {| url := "https://freeipapi.com/api/json"; parse := parse_freeipapi |}.
Definition ipwho : api :=
  {| url := "https://ipwho.is/"; parse := parse_ipwho |}.

Definition apis : list api := [ipapi; freeipapi; ipwho].

(** [result.ip && result.ip !== 'Unknown']. *)
Definition accepted (result : IPInfo) : bool :=
  truthy (ip result) && strict_neq_str (ip result) "Unknown".

(** The body of the [for] loop for one provider: [Some result] when it
    executes [return result], [None] when control goes on to the next
    iteration (by falling through or by [continue] in the handler). *)
Definition try_api (net : network) (a : api) : prog (option IPInfo) :=
  try_catch
    (do response <- fetch net (url a);
     if ok response then
       do data <- json (url a) response;
       do result <- parse a data;
       if accepted result then ret (Some result) else ret None
     else ret None)
    (ret None).

(** [for (const api of apis) { ... } return null]. *)
Fixpoint for_apis (net : network) (l : list api) : prog (option IPInfo) :=
  match l with
  | [] => ret None
  | a :: rest =>
      do r <- try_api net a;
      match r with
      | Some result => ret (Some result)
      | None => for_apis net rest
      end
  end.

Definition getIPInfo (net : network) : prog (option IPInfo) := for_apis net apis.

(** *** The older two-provider version (src/unnamed/part_001) *)

Definition old_parse_freeipapi (data : jsval) : prog IPInfo :=
  do d_ip <- get data "ipAddress";
  do d_city <- get data "cityName";
  do d_country <- get data "countryName";
  do d_region <- get data "regionName";
  do d_proxy <- get data "isProxy";
  do d_timezone <- get data "timeZone";
  do d_latitude <- get data "latitude";
  do d_longitude <- get data "longitude";
  ret {| ip := js_or d_ip Unknown;
         city := js_or d_city Unknown;
         country := js_or d_country Unknown;
         region := js_or d_region Unknown;
         isp := if truthy d_proxy then VStr "Proxy/VPN Detected" else Unknown;
         timezone := js_or d_timezone Unknown;
         latitude := js_or d_latitude zero;
         longitude := js_or d_longitude zero |}.

Definition old_parse_ip_api (data : jsval) : prog IPInfo :=
  do d_ip <- get data "query";
  do d_city <- get data "city";
  do d_country <- get data "country";
  do d_region <- get data "regionName";
  do d_isp <- get data "isp";
  do d_timezone <- get data "timezone";
  do d_latitude <- get data "lat";
  do d_longitude <- get data "lon";
  ret {| ip := js_or d_ip Unknown;
         city := js_or d_city Unknown;
         country := js_or d_country Unknown;
         region := js_or d_region Unknown;
         isp := js_or d_isp Unknown;
         timezone := js_or d_timezone Unknown;
         latitude := js_or d_latitude zero;
         longitude := js_or d_longitude zero |}.

(** One [fetch]-and-map block of the old version: [Some v] when it
    executes [return v], [None] when it falls out of its [if]. *)
Definition old_attempt (net : network) (u : string) (parse : jsval -> prog IPInfo)
  : prog (option (option IPInfo)) :=
  do response <- fetch net u;
  if ok response then
    do data <- json u response;
    do result <- parse data;
    ret (Some (Some result))
  else ret None.

(** [try { first } catch { try { second } catch { return null } } return null]. *)
Definition getIPInfo_old (net : network) : prog (option IPInfo) :=
  do r <- try_catch
            (old_attempt net "https://freeipapi.com/api/json" old_parse_freeipapi)
            (try_catch
               (old_attempt net "http://ip-api.com/json" old_parse_ip_api)
               (ret (Some None)));
  match r with
  | Some v => ret v
  | None => ret None
  end.

(** The URLs requested in a trace, in order. *)
Definition requests (t : list event) : list string :=
  omap (fun e => match e with Suspend (PFetch u) => Some u | _ => None end) t.

(** What one provider yields in a given network: its normalized record
    when the request succeeds with an ok response whose body maps to a
    record with a usable [ip]; nothing otherwise. *)
Definition answer (net : network) (a : api) : option IPInfo :=
  match net (url a) with
  | NetworkError => None
  | Responds r =>
      if ok r then
        match body r with
        | Some data =>
            match outcome (parse a data) with
            | Normal result =>
                if truthy (ip result) && strict_neq_str (ip result) "Unknown"
                then Some result else None
            | Thrown => None
            end
        | None => None
        end
      else None
  end.

(** A response mapper that performs no event of its own. *)
Definition silent (a : api) : Prop := forall data, trace (parse a data) = [].

(** The two versions give the same result in [net]. *)
Definition same_result (net : network) : Prop :=
  outcome (getIPInfo net) = outcome (getIPInfo_old net).

(** Some networks: only the third provider is reachable; nothing is
    reachable; only the first provider is reachable; only the second. *)
Definition sample_body (key : string) : response :=
  {| ok := true; body := Some (VObj [(key, VStr "203.0.113.7")]) |}.

Definition only (u : string) (r : response) : network :=
  fun u' => if String.eqb u' u then Responds r else NetworkError.

Definition net_third_only : network := only "https://ipwho.is/" (sample_body "ip").
Definition net_down : network := fun _ => NetworkError.
Definition net_first_only : network := only "https://ipapi.co/json/" (sample_body "ip").
Definition net_second_only : network :=
  only "https://freeipapi.com/api/json" (sample_body "ipAddress").

Definition sample_record : IPInfo :=
  {| ip := VStr "203.0.113.7"; city := Unknown; country := Unknown;
     region := Unknown; isp := Unknown; timezone := Unknown;
     latitude := zero; longitude := zero |}.

End GeoIP.

(** ** The canvas probe: [getCanvasFingerprint] *)

Module Canvas.
Import Async.

(** The calls the probe makes on the canvas and on its 2D context. *)
Inductive draw : Type :=
| SetWidth (w : Z)
| SetHeight (h : Z)
| SetTextBaseline (v : string)
| SetFont (v : string)
| SetFillStyle (v : string)
| FillRect (x y w h : Z)
| FillText (text : string) (x y : Z).

(** The rendering environment: whether [getContext('2d')] gives a
    context, and what [canvas.toDataURL()] returns after a sequence of
    calls ([Thrown] when one of the calls, or [toDataURL], throws). *)
Record renderer : Type := {
  getContext2d : bool;
  toDataURL : list draw -> completion (list Z) }.

(** The document, as far as the probe changes it: the number of canvas
    elements [document.createElement('canvas')] has made so far (the probe
    makes one per call and never attaches it). *)
Record document : Type := { canvases : nat }.

Definition createCanvas (d : document) : document :=
  {| canvases := S (canvases d) |}.

Definition drawing : list draw :=
  [ SetWidth 200; SetHeight 50;
    SetTextBaseline "top"; SetFont "14px Arial";
    SetFillStyle "#f60"; FillRect 125 1 62 20;
    SetFillStyle "#069"; FillText "WhatDoTheyKnow" 2 15;
    SetFillStyle "rgba(102, 204, 0, 0.7)"; FillText "Canvas FP" 4 35 ].

Definition getCanvasFingerprint (r : renderer) (d : document) : string * document :=
  let d := createCanvas d in
  if negb (getContext2d r) then ("Not available", d)
  else
    match toDataURL r drawing with
    | Normal dataUrl => (String.substring 0 16 (Hash.hashString dataUrl), d)
    | Thrown => ("Not available", d)
    end.

(** Two rendering environments: one without a 2D context, one that
    serializes every drawing to the same URL. *)
Definition no_context : renderer :=
  {| getContext2d := false; toDataURL := fun _ => Thrown |}.

Definition plain_renderer : renderer :=
  {| getContext2d := true;
     toDataURL := fun _ => Normal (Hash.units "data:image/png;base64,iVBORw0KGgo=") |}.

End Canvas.

(** ** The WebRTC probe: [getWebRTCInfo] *)

Module WebRTC.

Record WebRTCInfo : Type := {
  localIPs : list string;
  publicIP : option string;
  leaking : bool }.

Definition is_digit (c : ascii) : bool :=
  let n := N_of_ascii c in ((48 <=? n) && (n <=? 57))%N.

Definition first_of (a b : option nat) : option nat :=
  match a with Some r => Some r | None => b end.

(** [\d{1,3}] followed by the rest of the pattern [k]: greedy, so three
    digits are tried before two before one.  [n] counts the characters
    matched so far. *)
Definition digits_1_3 (k : nat -> string -> option nat) (n : nat) (s : string)
  : option nat :=
  match s with
  | String c1 s1 =>
      if is_digit c1 then
        let one := k (S n) s1 in
        match s1 with
        | String c2 s2 =>
            if is_digit c2 then
              let two := k (S (S n)) s2 in
              match s2 with
              | String c3 s3 =>
                  if is_digit c3
                  then first_of (k (S (S (S n))) s3) (first_of two one)
                  else first_of two one
              | EmptyString => first_of two one
              end
            else one
        | EmptyString => one
        end
      else None
  | EmptyString => None
  end.

(** [\.] followed by [k]. *)
Definition dot (k : nat -> string -> option nat) (n : nat) (s : string)
  : option nat :=
  match s with
  | String c s' => if Ascii.eqb c "."%char then k (S n) s' else None
  | EmptyString => None
  end.

(** The length of a match of [/(\d{1,3}\.){3}\d{1,3}/] at the start of [s]. *)
Definition quad_at (s : string) : option nat :=
  digits_1_3 (dot (digits_1_3 (dot (digits_1_3 (dot
    (digits_1_3 (fun n _ => Some n))))))) 0%nat s.

(** [candidate.match(/(\d{1,3}\.){3}\d{1,3}/)]: element 0 of the leftmost
    match. *)
Fixpoint ip_match (s : string) : option string :=
  match quad_at s with
  | Some n => Some (String.substring 0 n s)
  | None =>
      match s with
      | String _ rest => ip_match rest
      | EmptyString => None
      end
  end.

(** [ips.add(ip)] on a [Set], which keeps insertion order. *)
Definition set_add (ip : string) (ips : list string) : list string :=
  if decide (ip ∈ ips) then ips else ips ++ [ip].

(** What the ICE agent hands to [pc.onicecandidate]: a candidate line, or
    the null candidate that ends gathering. *)
Inductive ice_event : Type :=
| Candidate (candidate : string)
| EndOfCandidates.

(** The objects the callbacks share: the set [ips] and the [result]
    object (whose [publicIP] is written while gathering). *)
Record gathering : Type := { ips : list string; result : WebRTCInfo }.

Definition zero_result : WebRTCInfo :=
  {| localIPs := []; publicIP := None; leaking := false |}.

(** The handler on a non-null candidate. *)
Definition on_candidate (g : gathering) (candidate : string) : gathering :=
  match ip_match candidate with
  | Some ip =>
      if String.prefix "192.168." ip || String.prefix "10." ip || String.prefix "172." ip
      then {| ips := set_add ip (ips g); result := result g |}
      else if negb (String.prefix "0." ip)
      then {| ips := set_add ip (ips g);
              result := {| localIPs := localIPs (result g);
                           publicIP := Some ip;
                           leaking := leaking (result g) |} |}
      else g
  | None => g
  end.

(** [result.localIPs = Array.from(ips); result.leaking = ips.size > 0;
    resolve(result)], on either path. *)
Definition finalize (g : gathering) : WebRTCInfo :=
  {| localIPs := ips g;
     publicIP := publicIP (result g);
     leaking := (0 <? length (ips g))%nat |}.

(** The promise: the events delivered before the 3000 ms timer, in order.
    The null candidate resolves it (and clears the timer); when the events
    run out the timer fires and resolves it.  Both paths close the
    connection, after which no event is delivered. *)
Fixpoint gather (g : gathering) (events : list ice_event) : WebRTCInfo :=
  match events with
  | [] => finalize g
  | EndOfCandidates :: _ => finalize g
  | Candidate c :: rest => gather (on_candidate g c) rest
  end.

Record browser : Type := {
  has_RTCPeerConnection : bool;
  setup_throws : bool;      (* the constructor, [createDataChannel],
                               [createOffer] or [setLocalDescription] throws *)
  ice : list ice_event }.

Definition getWebRTCInfo (b : browser) : WebRTCInfo :=
  let result := zero_result in
  if negb (has_RTCPeerConnection b) then result
  else if setup_throws b then result
  else gather {| ips := []; result := result |} (ice b).

(** What holds of the shared objects while candidates come in: the set
    has no duplicates and the public address, once written, is in it. *)
Definition consistent (g : gathering) : Prop :=
  NoDup (ips g) /\ forall ip, publicIP (result g) = Some ip -> ip ∈ ips g.

(** A browser without the capability, and one that gathers a host
    candidate, a server-reflexive candidate and the null candidate. *)
Definition browser_without_rtc : browser :=
  {| has_RTCPeerConnection := false; setup_throws := false; ice := [] |}.

Definition browser_leaking : browser :=
  {| has_RTCPeerConnection := true; setup_throws := false;
     ice := [ Candidate "candidate:1 1 udp 2122260223 192.168.1.5 54321 typ host";
              Candidate "candidate:2 1 udp 1686052607 203.0.113.7 54321 typ srflx raddr 192.168.1.5 rport 54321";
              EndOfCandidates ] |}.

End WebRTC.

(** ** The font probe: [detectFonts] *)

Module Fonts.
Import Js.

Definition baseFonts : list string := ["monospace"; "sans-serif"; "serif"].

Definition testFonts : list string :=
  [ "Arial"; "Arial Black"; "Comic Sans MS"; "Courier New"; "Georgia";
    "Impact"; "Lucida Console"; "Lucida Sans Unicode"; "Palatino Linotype";
    "Tahoma"; "Times New Roman"; "Trebuchet MS"; "Verdana"; "MS Gothic";
    "MS PGothic"; "MS UI Gothic"; "Meiryo"; "Yu Gothic"; "Segoe UI";
    "Roboto"; "Open Sans"; "Helvetica"; "Helvetica Neue"; "Monaco";
    "Consolas"; "Menlo"; "Ubuntu"; "Cantarell"; "Fira Sans" ].

Definition testString : string := "mmmmmmmmmmlli".
Definition testSize : string := "72px".

(** The 2D context: whether there is one, which values [ctx.font] accepts
    (an assignment of a value that does not parse is ignored), and the
    width [measureText] reports for a text under the font in effect. *)
Record context : Type := {
  getContext2d : bool;
  font_parses : string -> bool;
  measureText : string -> string -> jsnum }.

(** [getWidth(font)], threading the value of [ctx.font]. *)
Definition getWidth (ctx : context) (font : string) (ctx_font : string)
  : jsnum * string :=
  let value := (testSize ++ " " ++ font)%string in
  let ctx_font := if font_parses ctx value then value else ctx_font in
  (measureText ctx ctx_font testString, ctx_font).

(** [baseFonts.map(getWidth)]. *)
Fixpoint map_getWidth (ctx : context) (fonts : list string) (ctx_font : string)
  : list jsnum * string :=
  match fonts with
  | [] => ([], ctx_font)
  | f :: rest =>
      let '(w, ctx_font) := getWidth ctx f ctx_font in
      let '(ws, ctx_font) := map_getWidth ctx rest ctx_font in
      (w :: ws, ctx_font)
  end.

(** The inner loop over the base fonts still to try, paired with their
    widths; it stops at the first difference. *)
Fixpoint differs (ctx : context) (font : string)
    (bases : list (string * jsnum)) (ctx_font : string) : bool * string :=
  match bases with
  | [] => (false, ctx_font)
  | (base, baseWidth) :: rest =>
      let '(width, ctx_font) :=
        getWidth ctx ("'" ++ font ++ "', " ++ base)%string ctx_font in
      if num_strict_neq width baseWidth then (true, ctx_font)
      else differs ctx font rest ctx_font
  end.

(** The outer loop, pushing onto [detected]. *)
Fixpoint probe (ctx : context) (fonts : list string)
    (bases : list (string * jsnum)) (ctx_font : string) (detected : list string)
  : list string :=
  match fonts with
  | [] => detected
  | font :: rest =>
      let '(isDetected, ctx_font) := differs ctx font bases ctx_font in
      probe ctx rest bases ctx_font
        (if isDetected then detected ++ [font] else detected)
  end.

(** The value of [ctx.font] of a fresh context. *)
Definition default_font : string := "10px sans-serif".

Definition detectFonts (ctx : context) : list string :=
  let detected := [] in
  if negb (getContext2d ctx) then detected
  else
    let '(baseWidths, ctx_font) := map_getWidth ctx baseFonts default_font in
    probe ctx testFonts (zip baseFonts baseWidths) ctx_font detected.

(** An environment without a drawing context. *)
Definition contextless : context :=
  {| getContext2d := false;
     font_parses := fun _ => true;
     measureText := fun _ _ => Finite 0 |}.

End Fonts.

(** ** The ad-blocker probe: [detectAdBlocker] *)

Module AdBlock.
Import Async Net.
Local Open Scope prog_scope.

(** The page around the bait element. *)
Record page : Type := {
  body_present : bool;          (* [document.body] is not null *)
  offsetHeight : Z;             (* of the bait, after the delay *)
  offsetParent_null : bool;
  display : string;             (* [getComputedStyle(bait).display] *)
  bait_still_child : bool }.    (* the bait is still a child of the body
                                   when it is removed *)

Definition adScript : string :=
  "https://pagead2.googlesyndication.com/pagead/js/adsbygoogle.js".

Definition appendChild (pg : page) : prog unit :=
  if body_present pg then perform AppendBait else throw.

Definition removeChild (pg : page) : prog unit :=
  if bait_still_child pg then perform RemoveBait else throw.

(** [bait.offsetHeight === 0 || bait.offsetParent === null ||
    getComputedStyle(bait).display === 'none']. *)
Definition bait_hidden (pg : page) : bool :=
  (offsetHeight pg =? 0) || offsetParent_null pg
  || String.eqb (display pg) "none".

Definition inspect (pg : page) : prog bool :=
  exec perform InspectBait;
  ret (bait_hidden pg).

(** The inner [try] is rendered by the flag [fetched]: its handler is the
    [return true], and after it comes [return blocked]. *)
Definition detectAdBlocker (pg : page) (net : network) : prog bool :=
  try_catch
    (exec appendChild pg;
     exec perform (Suspend (PTimer 100));
     do blocked <- inspect pg;
     exec removeChild pg;
     do fetched <- try_catch
                     (do _r <- fetch net adScript; ret true)
                     (ret false);
     if fetched then ret blocked else ret true)
    (ret false).

(** The events of a trace between the insertion of the bait and its
    removal (or the end of the trace, when it is not removed). *)
Fixpoint until_removal (t : list event) : list event :=
  match t with
  | [] => []
  | RemoveBait :: _ => []
  | e :: rest => e :: until_removal rest
  end.

Fixpoint while_attached (t : list event) : list event :=
  match t with
  | [] => []
  | AppendBait :: rest => until_removal rest
  | _ :: rest => while_attached rest
  end.

Definition is_suspension (e : event) : bool :=
  match e with Suspend _ => true | _ => false end.

Definition suspensions_with_bait (t : list event) : list event :=
  List.filter is_suspension (while_attached t).

(** The specification's reading: the task does not yield while the bait
    is in the document. *)
Definition no_suspension_with_bait (pg : page) (net : network) : Prop :=
  suspensions_with_bait (trace (detectAdBlocker pg net)) = [].

(** A page that leaves the bait alone, and networks that block and serve
    the ad script. *)
Definition untouched_page : page :=
  {| body_present := true; offsetHeight := 1; offsetParent_null := false;
     display := "block"; bait_still_child := true |}.

Definition ads_blocked : network := fun _ => NetworkError.
Definition ads_served : network :=
  fun _ => Responds {| ok := false; body := None |}.

End AdBlock.

(** ** The latency probe: [runSpeedTests] *)

Module Speed.

Inductive Status : Type := StPending | StTesting | StDone | StError.

Record SpeedTestResult : Type := {
  server : string;
  location : string;
  latency : option Z;
  status : Status }.

Record target : Type := { t_url : string; t_server : string; t_location : string }.

Definition servers : list target :=
  [ {| t_url := "https://www.google.com/favicon.ico"; t_server := "Google"; t_location := "Global CDN" |};
    {| t_url := "https://www.cloudflare.com/favicon.ico"; t_server := "Cloudflare"; t_location := "Global CDN" |};
    {| t_url := "https://aws.amazon.com/favicon.ico"; t_server := "Amazon AWS"; t_location := "US East" |};
    {| t_url := "https://azure.microsoft.com/favicon.ico"; t_server := "Microsoft Azure"; t_location := "Global" |};
    {| t_url := "https://github.com/favicon.ico"; t_server := "GitHub"; t_location := "Global CDN" |} ].

(** One timed request: the reading of [performance.now()] before it, and
    the reading after it when the [fetch] resolves ([None] when it
    rejects). *)
Record attempt : Type := { started : Q; finished : option Q }.

(** The requests of one run: sample [j] to server [i].  (The cache-busting
    URL of a request plays no part in what the probe computes.) *)
Definition timings : Type := nat -> nat -> attempt.

(** [Math.round]: halves go up. *)
Definition Math_round (x : Q) : Z := Qfloor (x + (1 # 2)).

Definition testLatency (a : attempt) : option Z :=
  match finished a with
  | Some ended => Some (Math_round (ended - started a))
  | None => None
  end.

(** [latencies.sort((a, b) => a - b)]. *)
Definition sort_numeric (l : list Z) : list Z := merge_sort Z.le l.

(** [for (let j = 0; j < 3; j++) { ... latencies.push(latency) ... }]. *)
Definition sample (tm : timings) (i : nat) : list Z :=
  fold_left
    (fun latencies j =>
       match testLatency (tm i j) with
       | Some l => latencies ++ [l]
       | None => latencies
       end)
    (seq 0 3) [].

Definition set_status (st : Status) (r : SpeedTestResult) : SpeedTestResult :=
  {| server := server r; location := location r; latency := latency r; status := st |}.

Definition set_latency (l : option Z) (r : SpeedTestResult) : SpeedTestResult :=
  {| server := server r; location := location r; latency := l; status := status r |}.

(** The results array and the arrays passed to [onUpdate] so far. *)
Definition run_state : Type := (list SpeedTestResult * list (list SpeedTestResult))%type.

Definition onUpdate (st : run_state) : run_state :=
  (fst st, snd st ++ [fst st]).

(** One turn of the outer loop. *)
Definition test_server (tm : timings) (st : run_state) (i : nat) : run_state :=
  let st := onUpdate (alter (set_status StTesting) i (fst st), snd st) in
  let latencies := sample tm i in
  let results :=
    if (0 <? length latencies)%nat then
      let latencies := sort_numeric latencies in
      alter (fun r => set_status StDone
                        (set_latency (latencies !! (length latencies / 2)%nat) r))
            i (fst st)
    else alter (set_status StError) i (fst st) in
  onUpdate (results, snd st).

Definition run (tm : timings) : run_state :=
  let results :=
    (fun s => {| server := t_server s; location := t_location s;
                 latency := None; status := StPending |}) <$> servers in
  fold_left (test_server tm) (seq 0 (length servers)) (onUpdate (results, [])).

Definition runSpeedTests (tm : timings) : list SpeedTestResult := fst (run tm).


(** What one turn of the outer loop makes of entry [i]. *)
Definition settle (tm : timings) (i : nat) (r : SpeedTestResult) : SpeedTestResult :=
  if (0 <? length (sample tm i))%nat then
    set_status StDone
      (set_latency
         (sort_numeric (sample tm i) !! (length (sort_numeric (sample tm i)) / 2)%nat)
         (set_status StTesting r))
  else set_status StError (set_status StTesting r).

(** Every server answers the first sample after 10 ms and the third after
    20 ms; the second request fails. *)
Definition two_of_three : timings :=
  fun _ j =>
    match j with
    | 0%nat => {| started := 0; finished := Some (10 # 1) |}
    | 1%nat => {| started := 100 # 1; finished := None |}
    | _ => {| started := 200 # 1; finished := Some (220 # 1) |}
    end.

(** The first entry at the end of that run. *)
Definition google_after_two : SpeedTestResult :=
  {| server := "Google"; location := "Global CDN";
     latency := Some 20; status := StDone |}.

(** No request succeeds. *)
Definition all_fail : timings :=
  fun _ _ => {| started := 0; finished := None |}.

End Speed.

(** ** Further probes of [privacy.ts] *)

(** *** [parseUserAgent] *)

Module UserAgent.

(** [s.includes(needle)]. *)
Fixpoint includes (needle s : string) : bool :=
  String.prefix needle s
  || match s with
     | EmptyString => false
     | String _ rest => includes needle rest
     end.

Record parsed : Type := { browser : string; os : string }.

Definition parseUserAgent (ua : string) : parsed :=
  let browser :=
    if includes "Firefox/" ua then "Firefox"
    else if includes "Edg/" ua then "Microsoft Edge"
    else if includes "Chrome/" ua then "Chrome"
    else if includes "Safari/" ua && negb (includes "Chrome" ua) then "Safari"
    else if includes "Opera" ua || includes "OPR/" ua then "Opera"
    else "Unknown" in
  let os :=
    if includes "Windows NT 10" ua then "Windows 10/11"
    else if includes "Windows" ua then "Windows"
    else if includes "Mac OS X" ua then "macOS"
    else if includes "Linux" ua then "Linux"
    else if includes "Android" ua then "Android"
    else if includes "iOS" ua || includes "iPhone" ua || includes "iPad" ua then "iOS"
    else "Unknown" in
  {| browser := browser; os := os |}.

(** User agents of a Chromium Opera on Windows, of Chrome on an Android
    phone, of Safari on an iPhone, and of the Android runtime. *)
Definition ua_opera : string :=
  "Mozilla/5.0 (Windows NT 10.0; Win64; x64) AppleWebKit/537.36 (KHTML, like Gecko) Chrome/120.0.0.0 Safari/537.36 OPR/106.0.0.0".
Definition ua_android : string :=
  "Mozilla/5.0 (Linux; Android 10; K) AppleWebKit/537.36 (KHTML, like Gecko) Chrome/120.0.0.0 Mobile Safari/537.36".
Definition ua_iphone : string :=
  "Mozilla/5.0 (iPhone; CPU iPhone OS 17_0 like Mac OS X) AppleWebKit/605.1.15 (KHTML, like Gecko) Version/17.0 Mobile/15E148 Safari/604.1".
Definition ua_dalvik : string := "Dalvik/2.1.0 (Android 10; Pixel 4)".

End UserAgent.

(** *** [getWebGLInfo] *)

Module WebGL.
Import Async Js.

Record WebGLInfo : Type := { vendor : jsval; renderer : jsval; available : bool }.

(** The [WEBGL_debug_renderer_info] extension object. *)
Record debug_info : Type := {
  UNMASKED_VENDOR_WEBGL : Z;
  UNMASKED_RENDERER_WEBGL : Z }.

(** A WebGL context: what [getExtension('WEBGL_debug_renderer_info')] and
    [getParameter] do, and the two constants the probe reads. *)
Record context : Type := {
  getExtension : completion (option debug_info);
  getParameter : Z -> completion jsval;
  VENDOR : Z;
  RENDERER : Z }.

(** The canvas: what [getContext] does for each of the two names. *)
Record canvas : Type := {
  webgl : completion (option context);
  experimental_webgl : completion (option context) }.

Definition lift {A} (c : completion A) : prog A := ([], c).

Definition not_available : WebGLInfo :=
  {| vendor := VStr "Not available"; renderer := VStr "Not available";
     available := false |}.

Local Open Scope prog_scope.

(** [canvas.getContext('webgl') || canvas.getContext('experimental-webgl')]. *)
Definition acquire (cv : canvas) : prog (option context) :=
  do gl <- lift (webgl cv);
  match gl with
  | Some _ => ret gl
  | None => lift (experimental_webgl cv)
  end.

(** The part of the [try] block after [if (!gl) return ...]. *)
Definition read_info (gl : context) : prog WebGLInfo :=
  do debugInfo <- lift (getExtension gl);
  match debugInfo with
  | Some debugInfo =>
      do v <- lift (getParameter gl (UNMASKED_VENDOR_WEBGL debugInfo));
      do r <- lift (getParameter gl (UNMASKED_RENDERER_WEBGL debugInfo));
      ret {| vendor := js_or v (VStr "Unknown");
             renderer := js_or r (VStr "Unknown");
             available := true |}
  | None =>
      do v <- lift (getParameter gl (VENDOR gl));
      do r <- lift (getParameter gl (RENDERER gl));
      ret {| vendor := js_or v (VStr "Unknown");
             renderer := js_or r (VStr "Unknown");
             available := true |}
  end.

Definition getWebGLInfo_body (cv : canvas) : prog WebGLInfo :=
  do gl <- acquire cv;
  match gl with
  | None => ret not_available
  | Some gl => read_info gl
  end.

(** The function is synchronous and its [catch] returns: it always
    produces a value. *)
Definition getWebGLInfo (cv : canvas) : WebGLInfo :=
  match outcome (try_catch (getWebGLInfo_body cv) (ret not_available)) with
  | Normal info => info
  | Thrown => not_available
  end.

(** A canvas whose only context is the experimental one, without the
    debug extension and with an empty vendor string; and a canvas whose
    context loses [getParameter]. *)
Definition masked_context : context :=
  {| getExtension := Normal None;
     getParameter := fun p => Normal (if p =? 7936 then VStr "" else VStr "WebKit WebGL");
     VENDOR := 7936; RENDERER := 7937 |}.

Definition experimental_only : canvas :=
  {| webgl := Normal None; experimental_webgl := Normal (Some masked_context) |}.

Definition broken_canvas : canvas :=
  {| webgl := Normal (Some {| getExtension := Normal None;
                              getParameter := fun _ => Thrown;
                              VENDOR := 7936; RENDERER := 7937 |});
     experimental_webgl := Normal None |}.

End WebGL.

(** *** [getCookieStatus] *)

Module Cookies.
Import Async.

Record status : Type := { enabled : bool; thirdParty : string }.

(** [s.indexOf(needle)], counting from [i]. *)
Fixpoint indexOf_from (needle s : string) (i : Z) : Z :=
  if String.prefix needle s then i
  else match s with
       | EmptyString => -1
       | String _ rest => indexOf_from needle rest (i + 1)
       end.

Definition indexOf (s needle : string) : Z := indexOf_from needle s 0.

Section Store.

(** The cookie store behind [document.cookie]: a state, what an
    assignment makes of it and what a read returns; either may throw. *)
Variable jar : Type.

Record store : Type := {
  assign : string -> jar -> completion jar;
  cookie : jar -> completion string }.

Definition getCookieStatus (cookieEnabled : bool) (st : store) (j : jar)
  : status * jar :=
  let enabled := cookieEnabled in
  let unable := {| enabled := enabled; thirdParty := "Unable to test" |} in
  match assign st "testcookie=1; SameSite=None; Secure" j with
  | Thrown => (unable, j)
  | Normal j =>
      match cookie st j with
      | Thrown => (unable, j)
      | Normal c =>
          if negb (indexOf c "testcookie" =? -1) then
            match assign st "testcookie=; expires=Thu, 01 Jan 1970 00:00:00 UTC;" j with
            | Thrown => (unable, j)
            | Normal j =>
                ({| enabled := enabled; thirdParty := "Likely Enabled" |}, j)
            end
          else ({| enabled := enabled; thirdParty := "Likely Blocked" |}, j)
      end
  end.

End Store.

Arguments assign {jar} _ _ _.
Arguments cookie {jar} _ _.
Arguments getCookieStatus {jar} _ _ _.

(** A store that drops every write and already holds a cookie of another
    name. *)
Definition read_only : store string :=
  {| assign := fun _ j => Normal j; cookie := fun j => Normal j |}.

End Cookies.

(** *** Shapes and conditions used in the properties below *)

Module Shapes.
Import Async Js Net.

(** One to three decimal digits. *)
Definition is_octet (s : string) : bool :=
  (1 <=? String.length s)%nat && (String.length s <=? 3)%nat
  && forallb WebRTC.is_digit (list_ascii_of_string s).

(** Four such groups separated by dots. *)
Definition dotted_quad (ip : string) : Prop :=
  exists a b c d,
    ip = (a ++ "." ++ b ++ "." ++ c ++ "." ++ d)%string
    /\ is_octet a = true /\ is_octet b = true
    /\ is_octet c = true /\ is_octet d = true.

(** The prefixes the WebRTC probe takes for a private address. *)
Definition private_prefix (ip : string) : bool :=
  String.prefix "192.168." ip || String.prefix "10." ip || String.prefix "172." ip.

(** Neither [undefined] nor [null]. *)
Definition defined (v : jsval) : Prop := v <> VUndefined /\ v <> VNull.

(** Every text field is truthy and the coordinates are defined. *)
Definition filled (r : GeoIP.IPInfo) : Prop :=
  truthy (GeoIP.ip r) = true /\ truthy (GeoIP.city r) = true
  /\ truthy (GeoIP.country r) = true /\ truthy (GeoIP.region r) = true
  /\ truthy (GeoIP.isp r) = true /\ truthy (GeoIP.timezone r) = true
  /\ defined (GeoIP.latitude r) /\ defined (GeoIP.longitude r).

(** A 2D context that accepts every value assigned to [ctx.font]. *)
Definition accepts_all (ctx : Fonts.context) : Prop :=
  forall value, Fonts.font_parses ctx value = true.

(** Whether putting [font] in front of some base font changes the width
    measured for that base font alone. *)
Definition changes_width (ctx : Fonts.context) (font : string) : bool :=
  existsb
    (fun base =>
       num_strict_neq
         (Fonts.measureText ctx
            (Fonts.testSize ++ " " ++ ("'" ++ font ++ "', " ++ base))%string
            Fonts.testString)
         (Fonts.measureText ctx (Fonts.testSize ++ " " ++ base)%string
            Fonts.testString))
    Fonts.baseFonts.

(** A context in which only Arial changes a width, and one that reports
    the same width for everything. *)
Definition arial_only : Fonts.context :=
  {| Fonts.getContext2d := true;
     Fonts.font_parses := fun _ => true;
     Fonts.measureText := fun font _ =>
       if String.prefix "72px 'Arial'," font then Finite (700 # 1)
       else Finite (650 # 1) |}.

Definition flat_context : Fonts.context :=
  {| Fonts.getContext2d := true;
     Fonts.font_parses := fun _ => false;
     Fonts.measureText := fun _ _ => Finite (650 # 1) |}.

(** The clock of a run never goes back during a request. *)
Definition monotonic (tm : Speed.timings) : Prop :=
  forall i j ended,
    Speed.finished (tm i j) = Some ended -> (Speed.started (tm i j) <= ended)%Q.

(** A page from which a blocker has removed the bait. *)
Definition bait_removed_page : AdBlock.page :=
  {| AdBlock.body_present := true; AdBlock.offsetHeight := 0;
     AdBlock.offsetParent_null := true; AdBlock.display := "none";
     AdBlock.bait_still_child := false |}.

(** freeipapi.com answers with a response that is not ok, or with a body
    without address; ip-api.com would answer. *)
Definition net_first_refuses : network :=
  fun u =>
    if String.eqb u "https://freeipapi.com/api/json"
    then Responds {| ok := false; body := None |}
    else Responds (GeoIP.sample_body "query").

Definition net_first_anonymous : network :=
  GeoIP.only "https://freeipapi.com/api/json"
    {| ok := true; body := Some (VObj [("cityName", VStr "Oslo")]) |}.

(** A browser that hides its host address behind an mDNS name, and one
    that reports an address in 172.217.0.0/16 and has more to report after
    the null candidate. *)
Definition browser_mdns : WebRTC.browser :=
  {| WebRTC.has_RTCPeerConnection := true; WebRTC.setup_throws := false;
     WebRTC.ice := [ WebRTC.Candidate "candidate:1 1 udp 2113937151 6f1c2a8e-3b7d-4c55-9e21-aa10f0c3d9b4.local 54321 typ host";
                     WebRTC.EndOfCandidates ] |}.

Definition browser_172 : WebRTC.browser :=
  {| WebRTC.has_RTCPeerConnection := true; WebRTC.setup_throws := false;
     WebRTC.ice := [ WebRTC.Candidate "candidate:3 1 udp 1686052607 172.217.0.1 3478 typ srflx";
                     WebRTC.EndOfCandidates;
                     WebRTC.Candidate "candidate:4 1 udp 1686052607 203.0.113.7 3478 typ srflx" ] |}.

End Shapes.

(** ** Proof automation *)

(** Closes a goal whose hypothesis [H] claims that an event is in a trace
    that does not contain it. *)
Ltac no_such_event H :=
  repeat (apply elem_of_cons in H as [H|H]; [discriminate H|]);
  apply elem_of_nil in H; contradiction.

Create HintDb geo.

(** Proves that a record built by one of the response mappers is filled
    in, from the hints of [geo]. *)
Ltac fill_record :=
  unfold Shapes.filled;
  cbn [GeoIP.ip GeoIP.city GeoIP.country GeoIP.region GeoIP.isp
       GeoIP.timezone GeoIP.latitude GeoIP.longitude];
  repeat match goal with |- _ /\ _ => split end;
  auto with geo.

(** ** The hash primitive *)

Module HashFacts.
Import Hash.

Example hash_abc : hashString (units "abc") = "17862".
Proof. reflexivity. Qed.

Example hash_wraps :
  hashString (units "WhatDoTheyKnow") = toString16 (Z.abs (spec_fold (units "WhatDoTheyKnow"))).
Proof. vm_compute. reflexivity. Qed.

Lemma ToInt32_range x : - 2^31 <= ToInt32 x < 2^31.
Proof.
  unfold ToInt32. pose proof (Z.mod_pos_bound (x + 2^31) (2^32)). lia.
Qed.

Lemma ToInt32_small x : - 2^31 <= x < 2^31 -> ToInt32 x = x.
Proof.
  intros Hx. unfold ToInt32. rewrite Z.mod_small; lia.
Qed.

Lemma ToInt32_shift x k : ToInt32 (x + k * 2^32) = ToInt32 x.
Proof.
  unfold ToInt32.
  replace (x + k * 2^32 + 2^31) with (x + 2^31 + k * 2^32) by ring.
  now rewrite Z_mod_plus_full.
Qed.

Lemma ToInt32_quot x : exists k, ToInt32 x = x + k * 2^32.
Proof.
  exists (- ((x + 2^31) / 2^32)). unfold ToInt32.
  rewrite Zmod_eq_full by lia. ring.
Qed.

Lemma wrap_int32_ToInt32 x : wrap_int32 x = ToInt32 x.
Proof.
  unfold wrap_int32.
  pose proof (Z.mod_pos_bound x (2^32) ltac:(lia)) as Hm.
  pose proof (Z_div_mod_eq_full x (2^32)) as Hx.
  destruct (Z.ltb_spec (x mod 2^32) (2^31)).
  - rewrite Hx at 2.
    replace (2^32 * (x / 2^32) + x mod 2^32) with (x mod 2^32 + (x / 2^32) * 2^32) by ring.
    rewrite ToInt32_shift. symmetry. apply ToInt32_small. lia.
  - rewrite Hx at 2.
    replace (2^32 * (x / 2^32) + x mod 2^32)
      with ((x mod 2^32 - 2^32) + (x / 2^32 + 1) * 2^32) by ring.
    rewrite ToInt32_shift. symmetry. apply ToInt32_small. lia.
Qed.

(** The loop body computes [hash*31 + char] modulo 2^32. *)
Lemma hash_step_spec hash char : hash_step hash char = wrap_int32 (hash * 31 + char).
Proof.
  rewrite wrap_int32_ToInt32. unfold hash_step, js_and, js_shl.
  rewrite Z.land_diag, (ToInt32_small (ToInt32 _)) by apply ToInt32_range.
  change (Z.land 5 31) with 5. rewrite Z.shiftl_mul_pow2 by lia.
  destruct (ToInt32_quot hash) as [k1 ->].
  destruct (ToInt32_quot ((hash + k1 * 2^32) * 2^5)) as [k2 ->].
  replace ((hash + k1 * 2^32) * 2^5 + k2 * 2^32 - hash + char)
    with (hash * 31 + char + (k1 * 2^5 + k2) * 2^32) by ring.
  apply ToInt32_shift.
Qed.

Lemma hash_loop_spec str : forall hash,
  hash_loop hash str = fold_left (fun h c => wrap_int32 (h * 31 + c)) str hash.
Proof.
  induction str as [|c rest IH]; intros hash; simpl; [reflexivity|].
  now rewrite IH, hash_step_spec.
Qed.

(** Between two turns of the loop [hash] is a 32-bit integer. *)
Lemma hash_loop_range str : forall hash,
  - 2^31 <= hash < 2^31 -> - 2^31 <= hash_loop hash str < 2^31.
Proof.
  induction str as [|c rest IH]; intros hash Hh; simpl; [exact Hh|].
  apply IH. rewrite hash_step_spec, wrap_int32_ToInt32. apply ToInt32_range.
Qed.

(** The number arithmetic of the loop body stays among the integers a
    double represents exactly, so modelling it in [Z] loses nothing. *)
Lemma hash_step_exact hash char :
  - 2^31 <= hash < 2^31 -> 0 <= char < 2^16 ->
  - 2^53 < js_shl hash 5 - hash + char < 2^53.
Proof.
  intros Hh Hc. unfold js_shl.
  pose proof (ToInt32_range (Z.shiftl (ToInt32 hash) (Z.land 5 31))). lia.
Qed.

Lemma hex_digit_value d : 0 <= d < 16 -> hex_value_of (hex_digit d) = Some d.
Proof.
  intros Hd.
  assert (d = 0 \/ d = 1 \/ d = 2 \/ d = 3 \/ d = 4 \/ d = 5 \/ d = 6 \/ d = 7 \/
          d = 8 \/ d = 9 \/ d = 10 \/ d = 11 \/ d = 12 \/ d = 13 \/ d = 14 \/ d = 15)
    as Hcases by lia.
  repeat (destruct Hcases as [-> | Hcases]; [reflexivity|]).
  now subst d.
Qed.

Lemma digits16_cons fuel : forall n acc,
  exists c rest, digits16 (S fuel) n acc = String c rest.
Proof.
  induction fuel as [|fuel IH]; intros n acc.
  - simpl. destruct (n / 16 =? 0); eauto.
  - change (digits16 (S (S fuel)) n acc)
      with (if n / 16 =? 0 then String (hex_digit (n mod 16)) acc
            else digits16 (S fuel) (n / 16) (String (hex_digit (n mod 16)) acc)).
    destruct (n / 16 =? 0); eauto.
Qed.

(** Reading the digits written for [n] back gives [n]. *)
Lemma digits16_value fuel : forall n acc,
  0 <= n < 16 ^ Z.of_nat fuel ->
  exists k, 0 <= k /\
    forall a, hex_value_from a (digits16 fuel n acc) = hex_value_from (a * 16 ^ k + n) acc.
Proof.
  induction fuel as [|fuel IH]; intros n acc Hn.
  - exists 0. split; [lia|]. intros a. simpl in *. f_equal. lia.
  - pose proof (Z.mod_pos_bound n 16 ltac:(lia)) as Hmod.
    pose proof (Z_div_mod_eq_full n 16) as Hdiv.
    simpl digits16. destruct (Z.eqb_spec (n / 16) 0) as [Hz|Hnz].
    + exists 1. split; [lia|]. intros a. simpl.
      rewrite hex_digit_value by lia. f_equal. lia.
    + assert (0 <= n / 16 < 16 ^ Z.of_nat fuel) as Hq.
      { split; [apply Z.div_pos; lia|].
        apply Z.div_lt_upper_bound; [lia|].
        rewrite Nat2Z.inj_succ, Z.pow_succ_r in Hn by lia. lia. }
      destruct (IH (n / 16) (String (hex_digit (n mod 16)) acc) Hq) as (k & Hk & IHk).
      exists (k + 1). split; [lia|]. intros a. rewrite IHk. simpl.
      rewrite hex_digit_value by lia. f_equal.
      rewrite Z.pow_add_r, Z.pow_1_r by lia. lia.
Qed.

Lemma toString16_value n : 0 <= n -> hex_value (toString16 n) = Some n.
Proof.
  intros Hn. unfold toString16.
  destruct (Z.ltb_spec n 0) as [?|_]; [lia|].
  set (fuel := Z.to_nat (Z.log2 n)).
  destruct (digits16_cons fuel n "") as (c & rest & Hshape).
  assert (0 <= n < 16 ^ Z.of_nat (S fuel)) as Hbound.
  { split; [lia|]. subst fuel.
    rewrite Nat2Z.inj_succ, Z2Nat.id by apply Z.log2_nonneg.
    destruct (Z.eq_dec n 0) as [->|Hpos]; [reflexivity|].
    pose proof (Z.log2_spec n ltac:(lia)) as [_ Hlt].
    pose proof (Z.log2_nonneg n).
    eapply Z.lt_le_trans; [exact Hlt|].
    apply Z.pow_le_mono_l. lia. }
  destruct (digits16_value (S fuel) n "" Hbound) as (k & _ & Hval).
  unfold hex_value. rewrite Hshape, <- Hshape, Hval. reflexivity.
Qed.

(** C1: [hashString s] is the lowercase hexadecimal numeral of the
    absolute value of the fold that starts at 0 and sets
    [hash := hash*31 + c], truncated to the 32-bit signed range, for each
    code unit [c] of [s] in order; the number it denotes is not negative
    (and at most 2^31); and [hashString ""] is the constant ["0"].  (The
    result is a function of [s] alone, hence the same on every call.) *)
Theorem hashString_spec (s : list Z) :
  hashString s = toString16 (Z.abs (spec_fold s))
  /\ hex_value (hashString s) = Some (Z.abs (spec_fold s))
  /\ 0 <= Z.abs (spec_fold s) <= 2^31
  /\ hashString [] = "0".
Proof.
  assert (hash_loop 0 s = spec_fold s) as Hfold by apply hash_loop_spec.
  pose proof (hash_loop_range s 0 ltac:(lia)) as Hrange.
  unfold hashString. rewrite Hfold in *.
  repeat split; try lia.
  apply toString16_value. lia.
Qed.

End HashFacts.

(** ** Facts about programs *)

Module AsyncFacts.
Import Async.

Lemma bind_normal {A B} (t : list event) (a : A) (k : A -> prog B) :
  bind (t, Normal a) k = (t ++ trace (k a), outcome (k a)).
Proof. unfold bind, trace, outcome. now destruct (k a). Qed.

Lemma bind_thrown {A B} (t : list event) (k : A -> prog B) :
  bind (t, Thrown) k = (t, Thrown).
Proof. reflexivity. Qed.

Lemma prog_eta {A} (m : prog A) : m = (trace m, outcome m).
Proof. now destruct m. Qed.

End AsyncFacts.

(** ** The geolocation probe *)

Module GeoIPFacts.
Import Async Js Net GeoIP AsyncFacts.

Lemma parse_ipapi_silent data : trace (parse_ipapi data) = [].
Proof. now destruct data. Qed.

Lemma parse_freeipapi_silent data : trace (parse_freeipapi data) = [].
Proof. now destruct data. Qed.

Lemma parse_ipwho_silent data : trace (parse_ipwho data) = [].
Proof.
  destruct data as [| | | | | |props]; try reflexivity.
  unfold parse_ipwho. simpl get.
  destruct (own_prop props "connection"), (own_prop props "timezone"); reflexivity.
Qed.

Lemma apis_silent : Forall silent apis.
Proof.
  repeat constructor; intros data; simpl.
  - apply parse_ipapi_silent.
  - apply parse_freeipapi_silent.
  - apply parse_ipwho_silent.
Qed.

Lemma answer_network_error net a :
  net (url a) = NetworkError -> answer net a = None.
Proof. unfold answer. now intros ->. Qed.

Lemma answer_not_ok net a r :
  net (url a) = Responds r -> ok r = false -> answer net a = None.
Proof. unfold answer. now intros -> ->. Qed.

Lemma answer_accepted net a result :
  answer net a = Some result ->
  truthy (ip result) = true /\ ip result <> VStr "Unknown".
Proof.
  unfold answer. intros H.
  destruct (net (url a)) as [|r]; [discriminate|].
  destruct (ok r); [|discriminate].
  destruct (body r) as [data|]; [|discriminate].
  destruct (outcome (parse a data)) as [res|]; [|discriminate].
  destruct (truthy (ip res)) eqn:Ht; [|discriminate].
  destruct (strict_neq_str (ip res) "Unknown") eqn:Hs; [|discriminate].
  simpl in H. injection H as <-. split; [exact Ht|].
  intros Heq. rewrite Heq in Hs. discriminate.
Qed.

(** One turn of the loop asks its provider once and produces its answer;
    it never throws. *)
Lemma try_api_answer net a :
  silent a ->
  outcome (try_api net a) = Normal (answer net a)
  /\ requests (trace (try_api net a)) = [url a].
Proof.
  intros Hsilent. unfold try_api, answer, fetch, json, accepted.
  destruct (net (url a)) as [|r]; [now split|].
  destruct r as [okr bodyr]. simpl.
  destruct okr; [|now split].
  destruct bodyr as [data|]; [|now split]. simpl.
  specialize (Hsilent data).
  destruct (parse a data) as [t [result|]]; simpl in *; subst t; [|now split].
  now destruct (truthy (ip result) && strict_neq_str (ip result) "Unknown").
Qed.

Lemma for_apis_cons net a rest :
  silent a ->
  for_apis net (a :: rest) =
    match answer net a with
    | Some result => (trace (try_api net a), Normal (Some result))
    | None => (trace (try_api net a) ++ trace (for_apis net rest),
               outcome (for_apis net rest))
    end.
Proof.
  intros Hsilent. destruct (try_api_answer net a Hsilent) as [Hout _].
  simpl for_apis. rewrite (prog_eta (try_api net a)), Hout, bind_normal.
  destruct (answer net a); simpl; [now rewrite app_nil_r|reflexivity].
Qed.

Lemma requests_app t1 t2 : requests (t1 ++ t2) = requests t1 ++ requests t2.
Proof. apply omap_app. Qed.

(** The providers up to the first one with an answer are asked, in list
    order, and that answer is returned. *)
Lemma for_apis_first net : forall l i a result,
  Forall silent l ->
  l !! i = Some a ->
  answer net a = Some result ->
  (forall j b, (j < i)%nat -> l !! j = Some b -> answer net b = None) ->
  outcome (for_apis net l) = Normal (Some result)
  /\ requests (trace (for_apis net l)) = url <$> take (S i) l.
Proof.
  induction l as [|a0 rest IH]; intros i a result Hs Hl Ha Hbefore; [discriminate|].
  inversion Hs as [|? ? Hs0 Hsrest]; subst.
  destruct (try_api_answer net a0 Hs0) as [_ Hreq].
  rewrite for_apis_cons by assumption.
  destruct i as [|i]; simpl in Hl.
  - injection Hl as ->. rewrite Ha. simpl. now rewrite Hreq.
  - rewrite (Hbefore 0%nat a0) by (simpl; (lia || reflexivity)).
    destruct (IH i a result Hsrest Hl Ha) as [Hout Htr].
    { intros j b Hj Hb. apply (Hbefore (S j) b); [lia|exact Hb]. }
    simpl. rewrite requests_app, Hreq, Hout, Htr. now split.
Qed.

(** When no provider has an answer all of them are asked, in list order,
    and the result is null. *)
Lemma for_apis_none net : forall l,
  Forall silent l ->
  (forall a, a ∈ l -> answer net a = None) ->
  outcome (for_apis net l) = Normal None
  /\ requests (trace (for_apis net l)) = url <$> l.
Proof.
  induction l as [|a0 rest IH]; intros Hs Hnone; [now split|].
  inversion Hs as [|? ? Hs0 Hsrest]; subst.
  destruct (try_api_answer net a0 Hs0) as [_ Hreq].
  rewrite for_apis_cons by assumption.
  rewrite (Hnone a0) by constructor.
  destruct (IH Hsrest) as [Hout Htr].
  { intros a Ha. apply Hnone. now constructor. }
  simpl. rewrite requests_app, Hreq, Hout, Htr. now split.
Qed.

(** A record that is returned is the answer of one of the providers. *)
Lemma for_apis_some net : forall l result,
  Forall silent l ->
  outcome (for_apis net l) = Normal (Some result) ->
  exists a, a ∈ l /\ answer net a = Some result.
Proof.
  induction l as [|a0 rest IH]; intros result Hs Hout; [discriminate|].
  inversion Hs as [|? ? Hs0 Hsrest]; subst.
  rewrite for_apis_cons in Hout by assumption.
  destruct (answer net a0) as [r0|] eqn:Ha0; simpl in Hout.
  - injection Hout as ->. exists a0. split; [constructor|exact Ha0].
  - destruct (IH result Hsrest Hout) as (a & Hin & Ha).
    exists a. split; [now constructor|exact Ha].
Qed.

(** C2: [getIPInfo] asks the providers in list order.  A provider whose
    request fails or whose response is not ok has no answer, and the next
    one is asked; the record of the first provider with an answer is
    returned, and no later provider is asked; a returned record has an
    [ip] that is present and not ['Unknown']; when no provider has an
    answer, all were asked and the result is null. *)
Theorem getIPInfo_fallback (net : network) :
  (forall i a result,
      apis !! i = Some a ->
      answer net a = Some result ->
      (forall j b, (j < i)%nat -> apis !! j = Some b -> answer net b = None) ->
      outcome (getIPInfo net) = Normal (Some result)
      /\ requests (trace (getIPInfo net)) = url <$> take (S i) apis)
  /\ ((forall a, a ∈ apis -> answer net a = None) ->
      outcome (getIPInfo net) = Normal None
      /\ requests (trace (getIPInfo net)) = url <$> apis)
  /\ (forall result,
      outcome (getIPInfo net) = Normal (Some result) ->
      truthy (ip result) = true /\ ip result <> VStr "Unknown"
      /\ exists a, a ∈ apis /\ answer net a = Some result)
  /\ (forall a,
      net (url a) = NetworkError
      \/ (exists r, net (url a) = Responds r /\ ok r = false) ->
      answer net a = None).
Proof.
  repeat apply conj.
  - intros i a result. apply for_apis_first, apis_silent.
  - apply for_apis_none, apis_silent.
  - intros result Hout.
    destruct (for_apis_some net apis result apis_silent Hout) as (a & Hin & Ha).
    destruct (answer_accepted net a result Ha) as [Ht Hu]. eauto.
  - intros a [Herr|(r & Hr & Hok)].
    + now apply answer_network_error.
    + now apply answer_not_ok with r.
Qed.

Lemma getIPInfo_fallback_witness :
  (outcome (getIPInfo net_third_only) = Normal (Some sample_record)
   /\ requests (trace (getIPInfo net_third_only)) = url <$> take 3 apis)
  /\ (outcome (getIPInfo net_down) = Normal None
      /\ requests (trace (getIPInfo net_down)) = url <$> apis).
Proof.
  split.
  - apply (proj1 (getIPInfo_fallback net_third_only) 2%nat ipwho sample_record).
    + reflexivity.
    + reflexivity.
    + intros j b Hj Hb.
      destruct j as [|[|j]]; simpl in Hb; [| |lia]; injection Hb as <-; reflexivity.
  - apply (proj1 (proj2 (getIPInfo_fallback net_down))).
    intros a _. reflexivity.
Defined.

(** The older version never throws either; its outcome, case by case. *)
Lemma getIPInfo_old_down net :
  (forall u, net u = NetworkError \/ exists r, net u = Responds r /\ ok r = false) ->
  outcome (getIPInfo_old net) = Normal None.
Proof.
  intros Hnet. unfold getIPInfo_old, old_attempt, fetch.
  destruct (Hnet "https://freeipapi.com/api/json") as [->|([ok1 b1] & -> & Hok1)];
    simpl in *.
  - destruct (Hnet "http://ip-api.com/json") as [->|([ok2 b2] & -> & Hok2)];
      simpl in *; [reflexivity|]. now subst ok2.
  - now subst ok1.
Qed.

Lemma getIPInfo_old_freeipapi net result :
  answer net freeipapi = Some result ->
  outcome (getIPInfo_old net) = Normal (Some result).
Proof.
  unfold answer. simpl url. simpl parse. intros H.
  unfold getIPInfo_old, old_attempt, fetch, json.
  destruct (net "https://freeipapi.com/api/json") as [|[okr bodyr]]; [discriminate|].
  simpl in *. destruct okr; [|discriminate].
  destruct bodyr as [data|]; [|discriminate]. simpl.
  change (old_parse_freeipapi data) with (parse_freeipapi data).
  pose proof (parse_freeipapi_silent data) as Hsilent.
  destruct (parse_freeipapi data) as [t [res|]]; simpl in *; [|discriminate].
  subst t.
  destruct (truthy (ip res) && strict_neq_str (ip res) "Unknown"); [|discriminate].
  now injection H as ->.
Qed.

(** C10, as the code has it: the two versions of [getIPInfo] agree when
    every request fails or is answered with a response that is not ok
    (both return null), and when the first provider of the current version
    has no answer while freeipapi.com has one (both return that record). *)
Theorem getIPInfo_versions_agree (net : network) :
  ((forall u, net u = NetworkError \/ exists r, net u = Responds r /\ ok r = false) ->
   outcome (getIPInfo net) = Normal None
   /\ outcome (getIPInfo_old net) = Normal None)
  /\ (forall result,
      answer net ipapi = None ->
      answer net freeipapi = Some result ->
      outcome (getIPInfo net) = Normal (Some result)
      /\ outcome (getIPInfo_old net) = Normal (Some result)).
Proof.
  split.
  - intros Hnet. split; [|now apply getIPInfo_old_down].
    apply for_apis_none; [apply apis_silent|].
    intros a _. destruct (Hnet (url a)) as [Herr|(r & Hr & Hok)].
    + now apply answer_network_error.
    + now apply answer_not_ok with r.
  - intros result H1 H2. split; [|now apply getIPInfo_old_freeipapi].
    apply (for_apis_first net apis 1%nat freeipapi result apis_silent);
      [reflexivity|exact H2|].
    intros j b Hj Hb. destruct j as [|j]; [|lia].
    simpl in Hb. now injection Hb as <-.
Qed.

Lemma getIPInfo_versions_agree_witness :
  (outcome (getIPInfo net_down) = Normal None
   /\ outcome (getIPInfo_old net_down) = Normal None)
  /\ (outcome (getIPInfo net_second_only) = Normal (Some sample_record)
      /\ outcome (getIPInfo_old net_second_only) = Normal (Some sample_record)).
Proof.
  split.
  - apply (proj1 (getIPInfo_versions_agree net_down)).
    intros u. left. reflexivity.
  - apply (proj2 (getIPInfo_versions_agree net_second_only) sample_record);
      reflexivity.
Defined.

(** C10 as stated fails: with only ipapi.co reachable the current version
    returns a record and the older one null. *)
Lemma getIPInfo_versions_differ : ~ same_result net_first_only.
Proof. unfold same_result. vm_compute. discriminate. Qed.

End GeoIPFacts.

(** ** The WebRTC probe *)

Module WebRTCFacts.
Import WebRTC.

Lemma set_add_NoDup ip ips : NoDup ips -> NoDup (set_add ip ips).
Proof.
  intros Hnd. unfold set_add. case_decide as Hin; [exact Hnd|].
  apply NoDup_app. repeat split; [exact Hnd| |apply NoDup_singleton].
  intros x Hx Hx'. apply list_elem_of_singleton in Hx'. now subst x.
Qed.

Lemma set_add_new ip ips : ip ∈ set_add ip ips.
Proof.
  unfold set_add. case_decide as Hin; [exact Hin|].
  apply elem_of_app. right. now apply list_elem_of_singleton.
Qed.

Lemma set_add_old x ip ips : x ∈ ips -> x ∈ set_add ip ips.
Proof.
  intros Hx. unfold set_add. case_decide; [exact Hx|].
  apply elem_of_app. now left.
Qed.

Create HintDb webrtc.
#[local] Hint Resolve set_add_NoDup set_add_new set_add_old : webrtc.

Lemma on_candidate_consistent g c : consistent g -> consistent (on_candidate g c).
Proof.
  intros [Hnd Hpub]. unfold on_candidate.
  destruct (ip_match c) as [ip|]; [|now split].
  destruct (String.prefix "192.168." ip || String.prefix "10." ip
            || String.prefix "172." ip).
  - split; simpl; auto with webrtc.
  - destruct (negb (String.prefix "0." ip)); [|now split].
    split; simpl; [auto with webrtc|].
    intros ip' [= <-]. auto with webrtc.
Qed.

Lemma finalize_consistent g :
  consistent g ->
  NoDup (localIPs (finalize g))
  /\ leaking (finalize g) = (0 <? length (localIPs (finalize g)))%nat
  /\ forall ip, publicIP (finalize g) = Some ip -> ip ∈ localIPs (finalize g).
Proof. intros [Hnd Hpub]. repeat split; assumption. Qed.

(** Whichever path resolves the promise, the result is built from a
    consistent state. *)
Lemma gather_consistent events : forall g,
  consistent g ->
  NoDup (localIPs (gather g events))
  /\ leaking (gather g events) = (0 <? length (localIPs (gather g events)))%nat
  /\ forall ip, publicIP (gather g events) = Some ip -> ip ∈ localIPs (gather g events).
Proof.
  induction events as [|[c|] rest IH]; intros g Hg; simpl.
  - now apply finalize_consistent.
  - apply IH. now apply on_candidate_consistent.
  - now apply finalize_consistent.
Qed.

Lemma getWebRTCInfo_consistent b :
  NoDup (localIPs (getWebRTCInfo b))
  /\ leaking (getWebRTCInfo b) = (0 <? length (localIPs (getWebRTCInfo b)))%nat
  /\ forall ip, publicIP (getWebRTCInfo b) = Some ip -> ip ∈ localIPs (getWebRTCInfo b).
Proof.
  unfold getWebRTCInfo.
  destruct (has_RTCPeerConnection b); simpl.
  - destruct (setup_throws b).
    + repeat split; [constructor|discriminate].
    + apply gather_consistent. split; [constructor|discriminate].
  - repeat split; [constructor|discriminate].
Qed.

(** C3: without the [RTCPeerConnection] capability the result is exactly
    [{localIPs: [], publicIP: null, leaking: false}]; and in every result
    [leaking] is true exactly when [localIPs] is not empty, and [localIPs]
    has no duplicates. *)
Theorem getWebRTCInfo_shape (b : browser) :
  (has_RTCPeerConnection b = false ->
   getWebRTCInfo b = {| localIPs := []; publicIP := None; leaking := false |})
  /\ (leaking (getWebRTCInfo b) = true <-> localIPs (getWebRTCInfo b) <> [])
  /\ NoDup (localIPs (getWebRTCInfo b)).
Proof.
  destruct (getWebRTCInfo_consistent b) as (Hnd & Hleak & _).
  repeat split; [| | |exact Hnd].
  - intros Hcap. unfold getWebRTCInfo. now rewrite Hcap.
  - rewrite Hleak. destruct (localIPs (getWebRTCInfo b)); simpl; [discriminate|easy].
  - rewrite Hleak. destruct (localIPs (getWebRTCInfo b)); simpl; [easy|reflexivity].
Qed.

Lemma getWebRTCInfo_shape_witness :
  getWebRTCInfo browser_without_rtc
  = {| localIPs := []; publicIP := None; leaking := false |}.
Proof.
  apply (proj1 (getWebRTCInfo_shape browser_without_rtc)). reflexivity.
Defined.

(** C9: in every result, a [publicIP] that is not null is also an element
    of [localIPs]. *)
Theorem getWebRTCInfo_public_listed (b : browser) (ip : string) :
  publicIP (getWebRTCInfo b) = Some ip -> ip ∈ localIPs (getWebRTCInfo b).
Proof.
  destruct (getWebRTCInfo_consistent b) as (_ & _ & Hpub). apply Hpub.
Qed.

Lemma getWebRTCInfo_public_listed_witness :
  "203.0.113.7" ∈ localIPs (getWebRTCInfo browser_leaking).
Proof.
  apply (getWebRTCInfo_public_listed browser_leaking "203.0.113.7"). reflexivity.
Defined.

Example getWebRTCInfo_leaking :
  getWebRTCInfo browser_leaking
  = {| localIPs := ["192.168.1.5"; "203.0.113.7"];
       publicIP := Some "203.0.113.7";
       leaking := true |}.
Proof. reflexivity. Qed.

End WebRTCFacts.

(** ** The font probe *)

Module FontsFacts.
Import Js Fonts.

(** The outer loop appends to [detected] a selection of the candidates
    it walks over, in their order. *)
Lemma probe_selects ctx bases : forall fonts ctx_font detected,
  exists selected,
    probe ctx fonts bases ctx_font detected = detected ++ selected
    /\ selected `sublist_of` fonts.
Proof.
  induction fonts as [|font rest IH]; intros ctx_font detected; simpl.
  - exists []. split; [now rewrite app_nil_r|constructor].
  - destruct (differs ctx font bases ctx_font) as [isDetected ctx_font'].
    destruct (IH ctx_font' (if isDetected then detected ++ [font] else detected))
      as (selected & -> & Hsub).
    destruct isDetected.
    + exists (font :: selected). split; [now rewrite <- app_assoc|].
      now apply sublist_skip.
    + exists selected. split; [reflexivity|]. now apply sublist_cons.
Qed.

Lemma testFonts_NoDup : NoDup testFonts.
Proof. apply (bool_decide_unpack _). vm_compute. exact I. Qed.

(** C8: the detected fonts are a subsequence of the 29 candidates (a
    subset, in the candidates' order) without duplicates; without a 2D
    context the result is empty. *)
Theorem detectFonts_sublist (ctx : context) :
  detectFonts ctx `sublist_of` testFonts
  /\ length testFonts = 29%nat
  /\ (forall font, font ∈ detectFonts ctx -> font ∈ testFonts)
  /\ NoDup (detectFonts ctx)
  /\ (getContext2d ctx = false -> detectFonts ctx = []).
Proof.
  assert (detectFonts ctx `sublist_of` testFonts) as Hsub.
  { unfold detectFonts. destruct (getContext2d ctx); cbv beta iota delta [negb].
    - destruct (map_getWidth ctx baseFonts default_font) as [baseWidths ctx_font].
      destruct (probe_selects ctx (zip baseFonts baseWidths) testFonts ctx_font [])
        as (selected & -> & Hsel).
      exact Hsel.
    - apply sublist_nil_l. }
  repeat split.
  - exact Hsub.
  - intros font Hin. eapply elem_of_sublist; eassumption.
  - eapply sublist_NoDup; [apply testFonts_NoDup|exact Hsub].
  - intros Hctx. unfold detectFonts. rewrite Hctx. reflexivity.
Qed.

Lemma detectFonts_sublist_witness : detectFonts contextless = [].
Proof.
  apply (proj2 (proj2 (proj2 (proj2 (detectFonts_sublist contextless))))).
  reflexivity.
Defined.

End FontsFacts.

(** ** The canvas probe *)

Module CanvasFacts.
Import Async Canvas.

Lemma substring_length_le n : forall s,
  (String.length (String.substring 0 n s) <= n)%nat.
Proof.
  induction n as [|n IH]; intros s.
  - destruct s; simpl; lia.
  - destruct s as [|c s]; simpl; [lia|]. specialize (IH s). lia.
Qed.

(** The result does not depend on the document the probe is called in. *)
Lemma getCanvasFingerprint_document r d d' :
  fst (getCanvasFingerprint r d) = fst (getCanvasFingerprint r d').
Proof.
  unfold getCanvasFingerprint.
  destruct (getContext2d r); simpl; [|reflexivity].
  destruct (toDataURL r drawing); reflexivity.
Qed.

(** C7: two invocations under the same rendering environment, the second
    one in the document the first one left, give the same string; the
    string has at most 16 characters; and it is ['Not available'] when no
    2D context is obtained. *)
Theorem getCanvasFingerprint_stable (r : renderer) (d : document) :
  fst (getCanvasFingerprint r (snd (getCanvasFingerprint r d)))
    = fst (getCanvasFingerprint r d)
  /\ (String.length (fst (getCanvasFingerprint r d)) <= 16)%nat
  /\ (getContext2d r = false -> fst (getCanvasFingerprint r d) = "Not available").
Proof.
  repeat split.
  - apply getCanvasFingerprint_document.
  - unfold getCanvasFingerprint.
    destruct (getContext2d r); simpl; [|lia].
    destruct (toDataURL r drawing); simpl; [apply substring_length_le|lia].
  - intros Hctx. unfold getCanvasFingerprint. now rewrite Hctx.
Qed.

Lemma getCanvasFingerprint_stable_witness :
  fst (getCanvasFingerprint no_context {| canvases := 0 |}) = "Not available".
Proof.
  apply (proj2 (proj2 (getCanvasFingerprint_stable no_context {| canvases := 0 |}))).
  reflexivity.
Defined.

Example getCanvasFingerprint_plain :
  getCanvasFingerprint plain_renderer {| canvases := 0 |}
  = ("331f5db1", {| canvases := 1 |}).
Proof. vm_compute. reflexivity. Qed.

End CanvasFacts.

(** ** The ad-blocker probe *)

Module AdBlockFacts.
Import Async Net AdBlock.

(** A run has one of three shapes: the bait cannot be inserted; it is
    inserted but cannot be removed; it is inserted and removed and the ad
    script is requested. *)
Lemma detectAdBlocker_runs pg net :
  detectAdBlocker pg net =
    if body_present pg then
      if bait_still_child pg then
        ([AppendBait; Suspend (PTimer 100); InspectBait; RemoveBait;
          Suspend (PFetch adScript)],
         Normal (match net adScript with
                 | NetworkError => true
                 | Responds _ => bait_hidden pg
                 end))
      else ([AppendBait; Suspend (PTimer 100); InspectBait], Normal false)
    else ([], Normal false).
Proof.
  unfold detectAdBlocker, appendChild, removeChild, inspect, fetch.
  destruct (body_present pg), (bait_still_child pg), (net adScript); reflexivity.
Qed.

Lemma bait_hidden_iff pg :
  bait_hidden pg = true
  <-> offsetHeight pg = 0 \/ offsetParent_null pg = true \/ display pg = "none".
Proof.
  unfold bait_hidden. rewrite !orb_true_iff, Z.eqb_eq, String.eqb_eq. tauto.
Qed.

(** C4: in a run that reaches the request for the ad script, a request
    that throws makes the result [true] whatever the bait showed, and a
    request that resolves makes it the flag computed from the bait (zero
    [offsetHeight], null [offsetParent] or computed [display: none]). *)
Theorem detectAdBlocker_fetch_overrides (pg : page) (net : network) :
  Suspend (PFetch adScript) ∈ trace (detectAdBlocker pg net) ->
  (net adScript = NetworkError -> outcome (detectAdBlocker pg net) = Normal true)
  /\ (forall r, net adScript = Responds r ->
        outcome (detectAdBlocker pg net) = Normal (bait_hidden pg))
  /\ (bait_hidden pg = true
      <-> offsetHeight pg = 0 \/ offsetParent_null pg = true \/ display pg = "none").
Proof.
  rewrite detectAdBlocker_runs. intros Hfetch.
  destruct (body_present pg); [|no_such_event Hfetch].
  destruct (bait_still_child pg); [|no_such_event Hfetch].
  repeat split; try apply bait_hidden_iff.
  - now intros ->.
  - now intros r ->.
Qed.

Lemma detectAdBlocker_fetch_overrides_witness :
  outcome (detectAdBlocker untouched_page ads_blocked) = Normal true
  /\ bait_hidden untouched_page = false.
Proof.
  split; [|reflexivity].
  assert (Suspend (PFetch adScript)
            ∈ trace (detectAdBlocker untouched_page ads_blocked)) as Hfetch
    by (vm_compute; repeat constructor).
  apply (proj1 (detectAdBlocker_fetch_overrides untouched_page ads_blocked Hfetch)).
  reflexivity.
Defined.

(** C6 as stated fails: on a page that leaves the bait alone the task is
    suspended while the bait is in the document. *)
Lemma detectAdBlocker_yields_with_bait :
  ~ no_suspension_with_bait untouched_page ads_served.
Proof. unfold no_suspension_with_bait. vm_compute. discriminate. Qed.

(** C6, as the code has it: in a run that inserts the bait, exactly one
    suspension point lies between the insertion and the removal, the
    await of the 100 ms timer; the bait is inspected after it, and the
    request for the ad script is awaited only after the removal. *)
Theorem detectAdBlocker_bait_window (pg : page) (net : network) :
  AppendBait ∈ trace (detectAdBlocker pg net) ->
  suspensions_with_bait (trace (detectAdBlocker pg net)) = [Suspend (PTimer 100)]
  /\ (trace (detectAdBlocker pg net)
        = [AppendBait; Suspend (PTimer 100); InspectBait]
      \/ trace (detectAdBlocker pg net)
        = [AppendBait; Suspend (PTimer 100); InspectBait; RemoveBait;
           Suspend (PFetch adScript)]).
Proof.
  rewrite detectAdBlocker_runs. intros Happend.
  destruct (body_present pg); [|no_such_event Happend].
  destruct (bait_still_child pg); split; auto.
Qed.

Lemma detectAdBlocker_bait_window_witness :
  suspensions_with_bait (trace (detectAdBlocker untouched_page ads_served))
  = [Suspend (PTimer 100)].
Proof.
  assert (AppendBait ∈ trace (detectAdBlocker untouched_page ads_served)) as Happend
    by (vm_compute; constructor).
  apply (proj1 (detectAdBlocker_bait_window untouched_page ads_served Happend)).
Defined.

End AdBlockFacts.

(** ** The latency probe *)

Module SpeedFacts.
Import Speed.

Lemma sort_numeric_sorted l : Sorted Z.le (sort_numeric l).
Proof. apply (Sorted_merge_sort Z.le). Qed.

Lemma sort_numeric_perm l : sort_numeric l ≡ₚ l.
Proof. apply (merge_sort_Permutation Z.le). Qed.

Lemma sort_numeric_length l : length (sort_numeric l) = length l.
Proof. apply Permutation_length, sort_numeric_perm. Qed.


(** One turn of the loop changes entry [i] only. *)
Lemma test_server_results tm st i :
  fst (test_server tm st i) = alter (settle tm i) i (fst st).
Proof.
  unfold test_server, settle, onUpdate. cbn [fst snd].
  destruct (0 <? length (sample tm i))%nat;
    rewrite list_alter_alter_eq; reflexivity.
Qed.

Lemma loop_results tm i : forall idxs st,
  NoDup idxs ->
  fst (fold_left (test_server tm) idxs st) !! i =
    if decide (i ∈ idxs) then settle tm i <$> fst st !! i else fst st !! i.
Proof.
  induction idxs as [|j rest IH]; intros st Hnd; cbn [fold_left].
  - rewrite decide_False by apply not_elem_of_nil. reflexivity.
  - apply NoDup_cons in Hnd as [Hj Hrest].
    rewrite IH, test_server_results by exact Hrest.
    destruct (decide (i = j)) as [->|Hne].
    + rewrite decide_False by exact Hj.
      rewrite decide_True by constructor.
      apply list_lookup_alter_eq.
    + rewrite list_lookup_alter_ne by congruence.
      destruct (decide (i ∈ rest)) as [Hin|Hin].
      * rewrite decide_True by now constructor. reflexivity.
      * rewrite decide_False; [reflexivity|].
        intros [?|?]%elem_of_cons; contradiction.
Qed.

(** The final entry of a server is what its turn made of the initial
    entry. *)
Lemma runSpeedTests_lookup tm i r :
  runSpeedTests tm !! i = Some r ->
  exists s, servers !! i = Some s
    /\ r = settle tm i {| server := t_server s; location := t_location s;
                          latency := None; status := StPending |}.
Proof.
  unfold runSpeedTests, run. rewrite loop_results by apply NoDup_seq.
  cbn [fst onUpdate]. rewrite list_lookup_fmap.
  destruct (servers !! i) as [s|] eqn:Hs; cbn [fmap option_fmap option_map].
  - apply lookup_lt_Some in Hs.
    rewrite decide_True by (apply elem_of_seq; lia).
    intros [= <-]. eauto.
  - destruct (decide _); discriminate.
Qed.

Lemma settle_some tm i r0 :
  sample tm i <> [] ->
  status (settle tm i r0) = StDone
  /\ latency (settle tm i r0)
     = sort_numeric (sample tm i) !! (length (sample tm i) / 2)%nat.
Proof.
  intros Hne. unfold settle.
  destruct (sample tm i) as [|x l] eqn:Hl; [contradiction|].
  rewrite sort_numeric_length. cbn [length Nat.ltb Nat.leb].
  split; reflexivity.
Qed.

Lemma settle_none tm i r0 :
  latency r0 = None ->
  sample tm i = [] ->
  status (settle tm i r0) = StError /\ latency (settle tm i r0) = None.
Proof. intros Hr0 Hnil. unfold settle. rewrite Hnil. now split. Qed.






End SpeedFacts.

(** ** Further properties of the probes *)

(** *** Strings *)

Module StringFacts.

Lemma append_cons x (a b : string) : (String x a ++ b = String x (a ++ b))%string.
Proof. reflexivity. Qed.

Lemma append_nil_l (b : string) : ("" ++ b = b)%string.
Proof. reflexivity. Qed.

Lemma append_assoc (a b c : string) : ((a ++ b) ++ c = a ++ (b ++ c))%string.
Proof.
  induction a as [|x a IH]; [reflexivity|].
  now rewrite !append_cons, IH.
Qed.

Lemma append_nil_r (a : string) : (a ++ "" = a)%string.
Proof.
  induction a as [|x a IH]; [reflexivity|]. now rewrite append_cons, IH.
Qed.

Lemma length_append (a b : string) :
  String.length (a ++ b) = (String.length a + String.length b)%nat.
Proof.
  induction a as [|x a IH]; [reflexivity|].
  rewrite append_cons. simpl. now rewrite IH.
Qed.

Lemma substring_append (a b : string) :
  String.substring 0 (String.length a) (a ++ b) = a.
Proof.
  induction a as [|x a IH].
  - rewrite append_nil_l. now destruct b.
  - rewrite append_cons. simpl. now rewrite IH.
Qed.

Lemma substring_whole n : forall s,
  (String.length s <= n)%nat -> String.substring 0 n s = s.
Proof.
  induction n as [|n IH]; intros [|c s] Hlen; simpl in *; try reflexivity; [lia|].
  rewrite IH by lia. reflexivity.
Qed.

Lemma prefix_append (p s : string) :
  String.prefix p s = true -> exists rest, s = (p ++ rest)%string.
Proof.
  revert s. induction p as [|x p IH]; intros s Hp.
  - exists s. reflexivity.
  - destruct s as [|y s]; simpl in Hp; [discriminate|].
    destruct (ascii_dec x y) as [->|]; [|discriminate].
    destruct (IH s Hp) as [rest ->]. now exists rest.
Qed.

Lemma append_prefix (p rest : string) : String.prefix p (p ++ rest) = true.
Proof.
  induction p as [|x p IH]; [now destruct rest|].
  rewrite append_cons. simpl.
  destruct (ascii_dec x x); [exact IH|contradiction].
Qed.

End StringFacts.

(** *** The hash and the canvas fingerprint *)

Module HashExtra.
Import Async Hash Canvas StringFacts.

Lemma digits16_length fuel : forall n acc (k : nat),
  0 <= n < 16 ^ Z.of_nat k -> (1 <= k)%nat ->
  (String.length (digits16 fuel n acc) <= k + String.length acc)%nat.
Proof.
  induction fuel as [|fuel IH]; intros n acc k Hn Hk; cbn [digits16]; [lia|].
  destruct (Z.eqb_spec (n / 16) 0) as [Hz|Hnz]; [simpl; lia|].
  destruct k as [|[|k]]; [lia| |].
  - exfalso. apply Hnz, Z.div_small. simpl in Hn. lia.
  - assert (0 <= n / 16 < 16 ^ Z.of_nat (S k)) as Hq.
    { split; [apply Z.div_pos; lia|].
      apply Z.div_lt_upper_bound; [lia|].
      rewrite (Nat2Z.inj_succ (S k)), Z.pow_succ_r in Hn by lia. lia. }
    specialize (IH (n / 16) (String (hex_digit (n mod 16)) acc) (S k) Hq ltac:(lia)).
    simpl in IH. lia.
Qed.

(** A number up to 2^31 is written with one to eight digits. *)
Lemma toString16_length n :
  0 <= n <= 2^31 -> (1 <= String.length (toString16 n) <= 8)%nat.
Proof.
  intros Hn. unfold toString16.
  destruct (Z.ltb_spec n 0) as [?|_]; [lia|].
  split.
  - destruct (HashFacts.digits16_cons (Z.to_nat (Z.log2 n)) n "") as (c & rest & ->).
    simpl. lia.
  - pose proof (digits16_length (S (Z.to_nat (Z.log2 n))) n "" 8%nat) as Hlen.
    simpl String.length in Hlen. rewrite Nat.add_0_r in Hlen.
    apply Hlen; [|lia]. change (16 ^ Z.of_nat 8) with 4294967296. lia.
Qed.

(** X1: The hash has between one and eight hexadecimal digits. *)
Theorem hashString_length (s : list Z) :
  (1 <= String.length (hashString s) <= 8)%nat.
Proof.
  pose proof (HashFacts.hash_loop_range s 0 ltac:(lia)) as Hrange.
  unfold hashString. apply toString16_length. lia.
Qed.

Lemma hash_loop_app s t : forall hash,
  hash_loop hash (s ++ t) = hash_loop (hash_loop hash s) t.
Proof. induction s as [|c s IH]; intros hash; simpl; [reflexivity|apply IH]. Qed.

(** X2: Two strings with the same 32-bit hash keep colliding whatever is
    appended to both. *)
Theorem hashString_collision_extends (s1 s2 t : list Z) :
  hash_loop 0 s1 = hash_loop 0 s2 ->
  hashString (s1 ++ t) = hashString (s2 ++ t).
Proof.
  intros Heq. unfold hashString. now rewrite !hash_loop_app, Heq.
Qed.

Lemma hashString_collision_extends_witness :
  hashString (units "Aa" ++ units "/canvas") = hashString (units "BB" ++ units "/canvas").
Proof.
  apply (hashString_collision_extends (units "Aa") (units "BB") (units "/canvas")).
  reflexivity.
Defined.

(** X3: When a 2D context is obtained and the canvas serializes, the
    fingerprint is the whole hash of the data URL: the cut at 16
    characters removes nothing, and the fingerprint has at most eight
    characters.  When serializing (or a drawing call) throws, the
    fingerprint is ['Not available']. *)
Theorem getCanvasFingerprint_is_hash (r : renderer) (d : document) :
  getContext2d r = true ->
  (forall dataUrl, toDataURL r drawing = Normal dataUrl ->
     fst (getCanvasFingerprint r d) = hashString dataUrl
     /\ (String.length (fst (getCanvasFingerprint r d)) <= 8)%nat)
  /\ (toDataURL r drawing = Thrown ->
      fst (getCanvasFingerprint r d) = "Not available").
Proof.
  intros Hctx. unfold getCanvasFingerprint. rewrite Hctx.
  split.
  - intros dataUrl ->. cbn [negb fst].
    pose proof (HashFacts.hash_loop_range dataUrl 0 ltac:(lia)) as Hrange.
    assert (String.length (hashString dataUrl) <= 8)%nat as Hlen
      by (unfold hashString; apply toString16_length; lia).
    rewrite substring_whole by lia. split; [reflexivity|exact Hlen].
  - now intros ->.
Qed.

Lemma getCanvasFingerprint_is_hash_witness :
  fst (getCanvasFingerprint plain_renderer {| canvases := 0 |})
  = hashString (units "data:image/png;base64,iVBORw0KGgo=").
Proof.
  assert (getContext2d plain_renderer = true) as Hctx by reflexivity.
  apply (proj1 (getCanvasFingerprint_is_hash plain_renderer {| canvases := 0 |} Hctx)
           (units "data:image/png;base64,iVBORw0KGgo=")).
  reflexivity.
Defined.

End HashExtra.

(** *** The geolocation probe *)

Module GeoIPExtra.
Import Async Js Net GeoIP AsyncFacts GeoIPFacts Shapes.

Lemma js_or_truthy a b : truthy b = true -> truthy (js_or a b) = true.
Proof. intros Hb. unfold js_or. now destruct (truthy a) eqn:Ha. Qed.

Lemma js_or_defined a b : defined b -> defined (js_or a b).
Proof.
  intros Hb. unfold js_or. destruct (truthy a) eqn:Ha; [|exact Hb].
  split; intros ->; discriminate.
Qed.

Lemma Unknown_truthy : truthy Unknown = true.
Proof. reflexivity. Qed.

Lemma zero_defined : defined zero.
Proof. split; discriminate. Qed.

#[local] Hint Resolve js_or_truthy js_or_defined Unknown_truthy zero_defined : geo.

Lemma parse_ipapi_filled data r :
  outcome (parse_ipapi data) = Normal r -> filled r.
Proof.
  destruct data; cbn; intros [= <-]; fill_record.
Qed.

Lemma parse_freeipapi_filled data r :
  outcome (parse_freeipapi data) = Normal r -> filled r.
Proof.
  destruct data as [| | | | | |props]; cbn; intros [= <-]; fill_record.
  now destruct (truthy (own_prop props "isProxy")).
Qed.

Lemma parse_ipwho_filled data r :
  outcome (parse_ipwho data) = Normal r -> filled r.
Proof.
  destruct data as [| | | | | |props]; cbn; try (intros [= <-]; fill_record).
  destruct (own_prop props "connection"), (own_prop props "timezone");
    cbn; intros [= <-]; fill_record.
Qed.

Lemma answer_parse net a r :
  answer net a = Some r -> exists data, outcome (parse a data) = Normal r.
Proof.
  unfold answer. intros H.
  destruct (net (url a)) as [|resp]; [discriminate|].
  destruct (ok resp); [|discriminate].
  destruct (body resp) as [data|]; [|discriminate].
  destruct (outcome (parse a data)) as [res|] eqn:Hres; [|discriminate].
  destruct (truthy (ip res) && strict_neq_str (ip res) "Unknown"); [|discriminate].
  injection H as ->. now exists data.
Qed.

Lemma for_apis_total net : forall l,
  Forall silent l ->
  exists res n,
    outcome (for_apis net l) = Normal res
    /\ (n <= length l)%nat /\ (l <> [] -> 1 <= n)%nat
    /\ requests (trace (for_apis net l)) = url <$> take n l.
Proof.
  induction l as [|a rest IH]; intros Hs.
  - exists None, 0%nat. repeat split; [lia|congruence].
  - inversion Hs as [|? ? Hs0 Hsrest]; subst.
    destruct (try_api_answer net a Hs0) as [_ Hreq].
    rewrite for_apis_cons by assumption.
    destruct (answer net a) as [r|].
    + exists (Some r), 1%nat. simpl. repeat split; [lia|lia|now rewrite Hreq].
    + destruct (IH Hsrest) as (res & n & Hout & Hn & _ & Htr).
      exists res, (S n). simpl. rewrite requests_app, Hreq, Htr.
      repeat split; [exact Hout|lia|lia].
Qed.

(** X4: Whatever the network does - requests that fail, responses that are
    not ok, bodies that are not JSON or are [null] - [getIPInfo] does not
    throw, and it asks between one and three providers, an initial segment
    of the list, each once. *)
Theorem getIPInfo_never_throws (net : network) :
  exists res n,
    outcome (getIPInfo net) = Normal res
    /\ (1 <= n <= 3)%nat
    /\ requests (trace (getIPInfo net)) = url <$> take n apis.
Proof.
  destruct (for_apis_total net apis apis_silent) as (res & n & Hout & Hn & Hpos & Htr).
  exists res, n. split; [exact Hout|]. split; [|exact Htr].
  simpl in Hn. split; [apply Hpos; discriminate|exact Hn].
Qed.

(** X5: Every record [getIPInfo] returns is filled in: [ip], [city],
    [country], [region], [isp] and [timezone] are truthy (never null,
    undefined or empty) and the coordinates are never null or undefined. *)
Theorem getIPInfo_record_filled (net : network) (r : IPInfo) :
  outcome (getIPInfo net) = Normal (Some r) -> filled r.
Proof.
  intros Hout.
  destruct (for_apis_some net apis r apis_silent Hout) as (a & Hin & Ha).
  destruct (answer_parse net a r Ha) as [data Hdata].
  unfold apis in Hin.
  apply elem_of_cons in Hin as [->|Hin]; [now apply parse_ipapi_filled with data|].
  apply elem_of_cons in Hin as [->|Hin]; [now apply parse_freeipapi_filled with data|].
  apply list_elem_of_singleton in Hin as ->. now apply parse_ipwho_filled with data.
Qed.

Lemma getIPInfo_record_filled_witness : filled sample_record.
Proof.
  apply (getIPInfo_record_filled net_third_only sample_record). reflexivity.
Defined.

(** X7: The older version falls back to ip-api.com only when the first
    request (or reading its body) throws: on a response that is not ok it
    returns null after that single request. *)
Theorem getIPInfo_old_no_fallback (net : network) (r : response) :
  net "https://freeipapi.com/api/json" = Responds r ->
  ok r = false ->
  outcome (getIPInfo_old net) = Normal None
  /\ requests (trace (getIPInfo_old net)) = ["https://freeipapi.com/api/json"].
Proof.
  intros Hnet Hok. unfold getIPInfo_old, old_attempt, fetch.
  rewrite Hnet. destruct r as [okr bodyr]. simpl in Hok. subst okr.
  now split.
Qed.

Lemma getIPInfo_old_no_fallback_witness :
  outcome (getIPInfo_old net_first_refuses) = Normal None
  /\ requests (trace (getIPInfo_old net_first_refuses))
     = ["https://freeipapi.com/api/json"].
Proof.
  apply (getIPInfo_old_no_fallback net_first_refuses {| ok := false; body := None |});
    reflexivity.
Defined.

(** X8: The older version does not check the address: an ok response from
    freeipapi.com whose body is an object without a usable [ipAddress]
    is returned as a record whose [ip] is ['Unknown'], where the current
    version goes on to the next provider. *)
Theorem getIPInfo_old_unknown_ip (net : network) (props : list (string * jsval)) :
  net "https://freeipapi.com/api/json"
    = Responds {| ok := true; body := Some (VObj props) |} ->
  truthy (own_prop props "ipAddress") = false ->
  (exists r, outcome (getIPInfo_old net) = Normal (Some r) /\ ip r = VStr "Unknown")
  /\ answer net freeipapi = None.
Proof.
  intros Hnet Hip. split.
  - unfold getIPInfo_old, old_attempt, fetch, json. rewrite Hnet. cbn.
    eexists. split; [reflexivity|]. cbn. unfold js_or. now rewrite Hip.
  - unfold answer. cbn [url freeipapi]. rewrite Hnet. cbn.
    unfold js_or. now rewrite Hip.
Qed.

Lemma getIPInfo_old_unknown_ip_witness :
  (exists r, outcome (getIPInfo_old net_first_anonymous) = Normal (Some r)
             /\ ip r = VStr "Unknown")
  /\ answer net_first_anonymous freeipapi = None.
Proof.
  apply (getIPInfo_old_unknown_ip net_first_anonymous [("cityName", VStr "Oslo")]);
    reflexivity.
Defined.

End GeoIPExtra.

(** *** The WebRTC probe *)

Module WebRTCExtra.
Import WebRTC WebRTCFacts StringFacts Shapes.

Lemma first_of_inv a b r : first_of a b = Some r -> a = Some r \/ b = Some r.
Proof. unfold first_of. destruct a; auto. Qed.

Lemma ip_match_unfold s :
  ip_match s =
    match quad_at s with
    | Some n => Some (String.substring 0 n s)
    | None => match s with
              | String _ rest => ip_match rest
              | EmptyString => None
              end
    end.
Proof. now destruct s. Qed.

(** What [\d{1,3}] consumed is one to three digits. *)
Lemma digits_1_3_inv k n s r :
  digits_1_3 k n s = Some r ->
  exists o rest,
    s = (o ++ rest)%string /\ is_octet o = true
    /\ k (String.length o + n)%nat rest = Some r.
Proof.
  unfold digits_1_3.
  destruct s as [|c1 s1]; [discriminate|].
  destruct (is_digit c1) eqn:H1; [|discriminate].
  assert (forall rest, k (S n) rest = Some r ->
            exists o rest', String c1 rest = (o ++ rest')%string
              /\ is_octet o = true
              /\ k (String.length o + n)%nat rest' = Some r) as One.
  { intros rest Hk. exists (String c1 ""), rest.
    unfold is_octet. simpl. now rewrite H1. }
  destruct s1 as [|c2 s2]; [apply One|].
  destruct (is_digit c2) eqn:H2; [|apply One].
  assert (forall rest, k (S (S n)) rest = Some r ->
            exists o rest', String c1 (String c2 rest) = (o ++ rest')%string
              /\ is_octet o = true
              /\ k (String.length o + n)%nat rest' = Some r) as Two.
  { intros rest Hk. exists (String c1 (String c2 "")), rest.
    unfold is_octet. simpl. now rewrite H1, H2. }
  destruct s2 as [|c3 s3].
  - intros [H|H]%first_of_inv; [now apply Two|now apply One].
  - destruct (is_digit c3) eqn:H3.
    + intros [H|H]%first_of_inv.
      * exists (String c1 (String c2 (String c3 ""))), s3.
        unfold is_octet. simpl. now rewrite H1, H2, H3.
      * apply first_of_inv in H as [H|H]; [now apply Two|now apply One].
    + intros [H|H]%first_of_inv; [now apply Two|now apply One].
Qed.

Lemma dot_inv k n s r :
  dot k n s = Some r ->
  exists rest, s = String "."%char rest /\ k (S n) rest = Some r.
Proof.
  unfold dot. destruct s as [|c rest]; [discriminate|].
  destruct (Ascii.eqb_spec c "."%char) as [->|]; [|discriminate].
  intros H. now exists rest.
Qed.

Lemma quad_at_inv s n :
  quad_at s = Some n ->
  exists ip rest,
    s = (ip ++ rest)%string /\ dotted_quad ip /\ n = String.length ip.
Proof.
  unfold quad_at. intros H.
  apply digits_1_3_inv in H as (a & s1 & -> & Ha & H).
  apply dot_inv in H as (s2 & -> & H).
  apply digits_1_3_inv in H as (b & s3 & -> & Hb & H).
  apply dot_inv in H as (s4 & -> & H).
  apply digits_1_3_inv in H as (c & s5 & -> & Hc & H).
  apply dot_inv in H as (s6 & -> & H).
  apply digits_1_3_inv in H as (d & rest & -> & Hd & H).
  injection H as <-.
  exists (a ++ "." ++ b ++ "." ++ c ++ "." ++ d)%string, rest.
  split; [|split].
  - rewrite !append_assoc. reflexivity.
  - now exists a, b, c, d.
  - rewrite !length_append. simpl. lia.
Qed.

(** The match is a dotted quad that occurs in the candidate line. *)
Lemma ip_match_inv s : forall ip,
  ip_match s = Some ip ->
  dotted_quad ip /\ exists before after, s = (before ++ ip ++ after)%string.
Proof.
  induction s as [|c s IH]; intros ip; rewrite ip_match_unfold.
  - discriminate.
  - destruct (quad_at (String c s)) as [n|] eqn:Hq.
    + apply quad_at_inv in Hq as (q & rest & Hs & Hquad & ->).
      rewrite Hs, substring_append. intros [= <-].
      split; [exact Hquad|]. now exists "", rest.
    + intros Hrest. destruct (IH ip Hrest) as (Hquad & before & after & ->).
      split; [exact Hquad|]. now exists (String c before), after.
Qed.

Lemma is_octet_length o :
  is_octet o = true -> (1 <= String.length o <= 3)%nat.
Proof.
  unfold is_octet. rewrite !andb_true_iff, !Nat.leb_le. tauto.
Qed.

Lemma dotted_quad_length ip :
  dotted_quad ip -> (7 <= String.length ip <= 15)%nat.
Proof.
  intros (a & b & c & d & -> & Ha & Hb & Hc & Hd).
  apply is_octet_length in Ha, Hb, Hc, Hd.
  rewrite !length_append. simpl. lia.
Qed.

Lemma private_not_zero ip :
  private_prefix ip = true -> String.prefix "0." ip = false.
Proof.
  unfold private_prefix. rewrite !orb_true_iff.
  intros [[H|H]|H]; apply prefix_append in H as [rest ->]; reflexivity.
Qed.

Lemma set_add_inv x ip ips : x ∈ set_add ip ips -> x = ip \/ x ∈ ips.
Proof.
  unfold set_add. case_decide as Hold; [now right|].
  intros [H|H]%elem_of_app; [now right|].
  apply list_elem_of_singleton in H. now left.
Qed.

(** An address enters the set only as the match of a candidate, and
    never one that starts with ["0."]. *)
Lemma on_candidate_ips g c x :
  x ∈ ips (on_candidate g c) ->
  x ∈ ips g \/ (ip_match c = Some x /\ String.prefix "0." x = false).
Proof.
  unfold on_candidate.
  destruct (ip_match c) as [ip|]; [|now left].
  fold (private_prefix ip).
  destruct (private_prefix ip) eqn:Hpriv; cbn [ips].
  - intros [->|H]%set_add_inv; [|now left].
    right. split; [reflexivity|now apply private_not_zero].
  - destruct (String.prefix "0." ip) eqn:Hzero; cbn [negb ips]; [now left|].
    intros [->|H]%set_add_inv; [|now left]. now right.
Qed.

Lemma on_candidate_public g c x :
  publicIP (result (on_candidate g c)) = Some x ->
  publicIP (result g) = Some x
  \/ (ip_match c = Some x /\ private_prefix x = false
      /\ String.prefix "0." x = false).
Proof.
  unfold on_candidate.
  destruct (ip_match c) as [ip|]; [|now left].
  fold (private_prefix ip).
  destruct (private_prefix ip) eqn:Hpriv; cbn [result]; [now left|].
  destruct (String.prefix "0." ip) eqn:Hzero; cbn [negb result publicIP]; [now left|].
  intros [= <-]. now right.
Qed.

Lemma gather_ips events : forall g x,
  x ∈ localIPs (gather g events) ->
  x ∈ ips g
  \/ exists c, Candidate c ∈ events /\ ip_match c = Some x
               /\ String.prefix "0." x = false.
Proof.
  induction events as [|[c|] rest IH]; intros g x; cbn [gather finalize localIPs];
    [now left| |now left].
  intros [H|(c' & Hin & Hm)]%IH.
  - apply on_candidate_ips in H as [H|[Hm Hz]]; [now left|].
    right. exists c. split; [constructor|now split].
  - right. exists c'. split; [now constructor|exact Hm].
Qed.

Lemma gather_public events : forall g x,
  publicIP (gather g events) = Some x ->
  publicIP (result g) = Some x
  \/ exists c, Candidate c ∈ events /\ ip_match c = Some x
               /\ private_prefix x = false /\ String.prefix "0." x = false.
Proof.
  induction events as [|[c|] rest IH]; intros g x; cbn [gather finalize publicIP];
    [now left| |now left].
  intros [H|(c' & Hin & Hm)]%IH.
  - apply on_candidate_public in H as [H|Hm]; [now left|].
    right. exists c. split; [constructor|exact Hm].
  - right. exists c'. split; [now constructor|exact Hm].
Qed.

(** X10: Every address in [localIPs] was read off a candidate delivered to the
    handler; it is four groups of one to three digits separated by dots
    (7 to 15 characters; the groups are not checked against 255) and does
    not start with ["0."]. *)
Theorem getWebRTCInfo_localIPs_sound (b : browser) (ip : string) :
  ip ∈ localIPs (getWebRTCInfo b) ->
  (exists c, Candidate c ∈ ice b /\ ip_match c = Some ip)
  /\ dotted_quad ip
  /\ (7 <= String.length ip <= 15)%nat
  /\ String.prefix "0." ip = false.
Proof.
  unfold getWebRTCInfo.
  destruct (has_RTCPeerConnection b); cbn [negb];
    [|intros H; now apply elem_of_nil in H].
  destruct (setup_throws b); [intros H; now apply elem_of_nil in H|].
  intros [H|(c & Hin & Hm & Hz)]%gather_ips; [now apply elem_of_nil in H|].
  destruct (ip_match_inv c ip Hm) as [Hquad _].
  split; [now exists c|]. split; [exact Hquad|].
  split; [now apply dotted_quad_length|exact Hz].
Qed.

Lemma getWebRTCInfo_localIPs_sound_witness :
  dotted_quad "192.168.1.5" /\ (7 <= String.length "192.168.1.5" <= 15)%nat.
Proof.
  assert ("192.168.1.5" ∈ localIPs (getWebRTCInfo browser_leaking)) as Hin
    by (vm_compute; constructor).
  destruct (getWebRTCInfo_localIPs_sound browser_leaking "192.168.1.5" Hin)
    as (_ & Hquad & Hlen & _).
  now split.
Defined.

(** X12: The address reported as [publicIP] never starts with ["192.168."],
    ["10."], ["172."] or ["0."]: every address under 172, also one outside
    the private block 172.16.0.0/12, counts as local and is never the
    public address. *)
Theorem getWebRTCInfo_public_not_private (b : browser) (ip : string) :
  publicIP (getWebRTCInfo b) = Some ip ->
  String.prefix "192.168." ip = false
  /\ String.prefix "10." ip = false
  /\ String.prefix "172." ip = false
  /\ String.prefix "0." ip = false
  /\ dotted_quad ip.
Proof.
  unfold getWebRTCInfo.
  destruct (has_RTCPeerConnection b); cbn [negb]; [|discriminate].
  destruct (setup_throws b); [discriminate|].
  intros [H|(c & Hin & Hm & Hpriv & Hz)]%gather_public; [discriminate|].
  destruct (ip_match_inv c ip Hm) as [Hquad _].
  unfold private_prefix in Hpriv.
  apply orb_false_iff in Hpriv as [Hpriv H172].
  apply orb_false_iff in Hpriv as [H192 H10].
  now repeat split.
Qed.

Lemma getWebRTCInfo_public_not_private_witness :
  String.prefix "172." "203.0.113.7" = false
  /\ publicIP (getWebRTCInfo browser_172) = None.
Proof.
  split; [|reflexivity].
  assert (publicIP (getWebRTCInfo browser_leaking) = Some "203.0.113.7") as Hpub
    by reflexivity.
  apply (getWebRTCInfo_public_not_private browser_leaking "203.0.113.7" Hpub).
Defined.

(** X14: A result that is not leaking is the zero result: no address and no
    public address. *)
Theorem getWebRTCInfo_not_leaking (b : browser) :
  leaking (getWebRTCInfo b) = false -> getWebRTCInfo b = zero_result.
Proof.
  destruct (getWebRTCInfo_consistent b) as (_ & Hleak & Hpub).
  destruct (getWebRTCInfo b) as [ips pub leak]. cbn in *.
  intros ->. destruct ips as [|ip ips]; [|discriminate].
  destruct pub as [ip|]; [|reflexivity].
  specialize (Hpub ip eq_refl). now apply elem_of_nil in Hpub.
Qed.

Lemma getWebRTCInfo_not_leaking_witness :
  getWebRTCInfo browser_mdns = zero_result.
Proof.
  apply (getWebRTCInfo_not_leaking browser_mdns). reflexivity.
Defined.

End WebRTCExtra.

(** *** The font probe *)

Module FontsExtra.
Import Js Fonts Shapes.

Section Accepting.

Variable ctx : context.
Hypothesis Haccepts : accepts_all ctx.

(** The width measured for [font] when the assignment to [ctx.font]
    takes effect. *)
Let width (font : string) : jsnum :=
  measureText ctx (testSize ++ " " ++ font)%string testString.

Lemma getWidth_accepting font ctx_font :
  getWidth ctx font ctx_font = (width font, (testSize ++ " " ++ font)%string).
Proof. unfold getWidth, width. now rewrite Haccepts. Qed.

Lemma map_getWidth_accepting : forall fonts ctx_font,
  fst (map_getWidth ctx fonts ctx_font) = map width fonts.
Proof.
  induction fonts as [|f rest IH]; intros ctx_font; cbn [map_getWidth map];
    [reflexivity|].
  rewrite getWidth_accepting.
  specialize (IH (testSize ++ " " ++ f)%string).
  destruct (map_getWidth ctx rest _) as [ws cf]. cbn [fst] in *. now rewrite IH.
Qed.

Lemma differs_accepting font : forall bases ctx_font,
  fst (differs ctx font bases ctx_font)
  = existsb (fun bw => num_strict_neq
                         (width ("'" ++ font ++ "', " ++ fst bw)%string) (snd bw))
      bases.
Proof.
  induction bases as [|[base w] rest IH]; intros ctx_font;
    cbn [differs existsb fst snd]; [reflexivity|].
  rewrite getWidth_accepting.
  destruct (num_strict_neq _ w); [reflexivity|apply IH].
Qed.

Lemma probe_accepting bases : forall fonts ctx_font detected,
  probe ctx fonts bases ctx_font detected
  = detected
    ++ List.filter
         (fun font =>
            existsb (fun bw => num_strict_neq
                                 (width ("'" ++ font ++ "', " ++ fst bw)%string)
                                 (snd bw)) bases)
         fonts.
Proof.
  induction fonts as [|font rest IH]; intros ctx_font detected;
    cbn [probe List.filter]; [now rewrite app_nil_r|].
  pose proof (differs_accepting font bases ctx_font) as Hd.
  destruct (differs ctx font bases ctx_font) as [isDetected cf]. cbn [fst] in Hd.
  rewrite IH, <- Hd. destruct isDetected; [|reflexivity].
  now rewrite <- app_assoc.
Qed.

Lemma existsb_zip_map {A B} (F : A -> B -> bool) (m : A -> B) : forall l,
  existsb (fun p => F (fst p) (snd p)) (zip l (map m l))
  = existsb (fun a => F a (m a)) l.
Proof.
  induction l as [|a l IH]; [reflexivity|].
  cbn [map zip zip_with existsb fst snd]. now rewrite <- IH.
Qed.

End Accepting.

(** X15: When the context accepts every font value, a candidate is detected
    exactly when putting it in front of one of the three base fonts
    changes the width measured for that base font alone: the result is the
    candidate list filtered by that test. *)
Theorem detectFonts_accepting (ctx : context) :
  accepts_all ctx ->
  getContext2d ctx = true ->
  detectFonts ctx = List.filter (changes_width ctx) testFonts.
Proof.
  intros Hacc Hctx. unfold detectFonts. rewrite Hctx. cbv beta iota delta [negb].
  pose proof (map_getWidth_accepting ctx Hacc baseFonts default_font) as Hws.
  destruct (map_getWidth ctx baseFonts default_font) as [baseWidths ctx_font].
  cbn [fst] in Hws. subst baseWidths.
  rewrite (probe_accepting ctx Hacc), app_nil_l.
  apply List.filter_ext. intros font. unfold changes_width.
  apply (existsb_zip_map
           (fun base w =>
              num_strict_neq
                (measureText ctx
                   (testSize ++ " " ++ ("'" ++ font ++ "', " ++ base))%string
                   testString) w)
           (fun base => measureText ctx (testSize ++ " " ++ base)%string testString)
           baseFonts).
Qed.

Lemma detectFonts_accepting_witness : detectFonts arial_only = ["Arial"].
Proof.
  assert (accepts_all arial_only) as Hacc by (intros value; reflexivity).
  assert (getContext2d arial_only = true) as Hctx by reflexivity.
  rewrite (detectFonts_accepting arial_only Hacc Hctx).
  vm_compute. reflexivity.
Defined.

Section Flat.

Variable ctx : context.
Hypothesis Hflat : forall f g,
  num_strict_neq (measureText ctx f testString) (measureText ctx g testString)
  = false.

(** A width that was measured under some value of [ctx.font]. *)
Let measured (w : jsnum) : Prop := exists f, w = measureText ctx f testString.

Lemma getWidth_measured font ctx_font : measured (fst (getWidth ctx font ctx_font)).
Proof. unfold getWidth, measured. cbn [fst]. eauto. Qed.

Lemma map_getWidth_measured : forall fonts ctx_font,
  Forall measured (fst (map_getWidth ctx fonts ctx_font)).
Proof.
  induction fonts as [|f rest IH]; intros ctx_font; cbn [map_getWidth];
    [constructor|].
  pose proof (getWidth_measured f ctx_font) as Hw.
  destruct (getWidth ctx f ctx_font) as [w cf]. specialize (IH cf).
  destruct (map_getWidth ctx rest cf) as [ws cf']. cbn [fst] in *.
  now constructor.
Qed.

Lemma zip_measured : forall (l : list string) ws,
  Forall measured ws -> Forall (fun bw => measured (snd bw)) (zip l ws).
Proof.
  induction l as [|b l IH]; intros ws Hws; [constructor|].
  destruct Hws as [|w ws Hw Hws]; [constructor|].
  cbn [zip zip_with]. constructor; [exact Hw|now apply IH].
Qed.

Lemma differs_flat font : forall bases ctx_font,
  Forall (fun bw => measured (snd bw)) bases ->
  fst (differs ctx font bases ctx_font) = false.
Proof.
  induction bases as [|[base w] rest IH]; intros ctx_font Hb; cbn [differs];
    [reflexivity|].
  inversion Hb as [|? ? [f Hw] Hrest]; subst. cbn [snd] in Hw. subst w.
  pose proof (getWidth_measured (("'" ++ font ++ "', " ++ base)%string) ctx_font)
    as [g Hg].
  destruct (getWidth ctx _ ctx_font) as [width cf]. cbn [fst] in Hg. subst width.
  rewrite Hflat. now apply IH.
Qed.

Lemma probe_flat bases : forall fonts ctx_font detected,
  Forall (fun bw => measured (snd bw)) bases ->
  probe ctx fonts bases ctx_font detected = detected.
Proof.
  induction fonts as [|font rest IH]; intros ctx_font detected Hb; cbn [probe];
    [reflexivity|].
  pose proof (differs_flat font bases ctx_font Hb) as Hd.
  destruct (differs ctx font bases ctx_font) as [isDetected cf]. cbn [fst] in Hd.
  subst isDetected. now apply IH.
Qed.

End Flat.

(** X16: When no two measurements of the probe string differ, no font is
    detected, whichever font values the context accepts or ignores. *)
Theorem detectFonts_flat (ctx : context) :
  (forall f g,
     num_strict_neq (measureText ctx f testString) (measureText ctx g testString)
     = false) ->
  detectFonts ctx = [].
Proof.
  intros Hflat. unfold detectFonts. destruct (getContext2d ctx);
    cbv beta iota delta [negb]; [|reflexivity].
  pose proof (map_getWidth_measured ctx baseFonts default_font) as Hws.
  destruct (map_getWidth ctx baseFonts default_font) as [baseWidths ctx_font].
  cbn [fst] in Hws. apply (probe_flat ctx Hflat). now apply zip_measured.
Qed.

Lemma detectFonts_flat_witness : detectFonts flat_context = [].
Proof.
  apply (detectFonts_flat flat_context). intros f g. reflexivity.
Defined.

End FontsExtra.

(** *** The ad-blocker probe *)

Module AdBlockExtra.
Import Async Net AdBlock AdBlockFacts Shapes.

(** X17: [detectAdBlocker] does not throw, and it answers [true] only in a run
    that inserted and removed the bait and then either saw the request
    for the ad script fail or had found the bait hidden: an exception on
    the way never counts as a blocker. *)
Theorem detectAdBlocker_verdict (pg : page) (net : network) :
  exists b,
    outcome (detectAdBlocker pg net) = Normal b
    /\ (b = true ->
        body_present pg = true /\ bait_still_child pg = true
        /\ (net adScript = NetworkError \/ bait_hidden pg = true)).
Proof.
  rewrite detectAdBlocker_runs.
  destruct (body_present pg); [|exists false; split; [reflexivity|discriminate]].
  destruct (bait_still_child pg); [|exists false; split; [reflexivity|discriminate]].
  destruct (net adScript) as [|r]; eexists; (split; [reflexivity|]);
    intros Hb; auto.
Qed.

Lemma detectAdBlocker_verdict_witness :
  exists b, outcome (detectAdBlocker untouched_page ads_served) = Normal b
            /\ b = false.
Proof.
  destruct (detectAdBlocker_verdict untouched_page ads_served) as (b & Hb & Htrue).
  exists b. split; [exact Hb|].
  destruct b; [|reflexivity].
  destruct (Htrue eq_refl) as (_ & _ & [Hnet|Hhid]); discriminate.
Defined.

(** X18: When the bait is no longer a child of the body at the time it is
    removed (a blocker took it out of the document), or there is no body,
    the probe answers [false] and never requests the ad script - also
    when the bait was found hidden and the request would have failed. *)
Theorem detectAdBlocker_removed_bait (pg : page) (net : network) :
  body_present pg = false \/ bait_still_child pg = false ->
  outcome (detectAdBlocker pg net) = Normal false
  /\ Suspend (PFetch adScript) ∉ trace (detectAdBlocker pg net).
Proof.
  rewrite detectAdBlocker_runs. intros [-> | Hgone].
  - split; [reflexivity|apply not_elem_of_nil].
  - rewrite Hgone. destruct (body_present pg).
    + split; [reflexivity|]. intros H. no_such_event H.
    + split; [reflexivity|apply not_elem_of_nil].
Qed.

Lemma detectAdBlocker_removed_bait_witness :
  outcome (detectAdBlocker bait_removed_page ads_blocked) = Normal false
  /\ bait_hidden bait_removed_page = true.
Proof.
  split; [|reflexivity].
  apply (detectAdBlocker_removed_bait bait_removed_page ads_blocked).
  right. reflexivity.
Defined.

End AdBlockExtra.

(** *** The latency probe *)

Module SpeedExtra.
Import Speed SpeedFacts Shapes.

Lemma test_server_log tm st i :
  snd (test_server tm st i)
  = snd st ++ [alter (set_status StTesting) i (fst st); fst (test_server tm st i)].
Proof.
  unfold test_server, onUpdate. cbn [fst snd].
  now rewrite <- app_assoc.
Qed.

Lemma loop_log_length tm : forall idxs st,
  length (snd (fold_left (test_server tm) idxs st))
  = (length (snd st) + 2 * length idxs)%nat.
Proof.
  induction idxs as [|i rest IH]; intros st; cbn [fold_left length]; [lia|].
  rewrite IH, test_server_log, length_app. cbn [length]. lia.
Qed.

Lemma loop_last tm : forall idxs st,
  last (snd st) = Some (fst st) ->
  last (snd (fold_left (test_server tm) idxs st))
  = Some (fst (fold_left (test_server tm) idxs st)).
Proof.
  induction idxs as [|i rest IH]; intros st Hlast; cbn [fold_left]; [exact Hlast|].
  apply IH. rewrite test_server_log.
  change [alter (set_status StTesting) i (fst st); fst (test_server tm st i)]
    with ([alter (set_status StTesting) i (fst st)] ++ [fst (test_server tm st i)]).
  now rewrite app_assoc, last_snoc.
Qed.

Lemma loop_length tm : forall idxs st,
  length (fst (fold_left (test_server tm) idxs st)) = length (fst st).
Proof.
  induction idxs as [|i rest IH]; intros st; cbn [fold_left]; [reflexivity|].
  now rewrite IH, test_server_results, length_alter.
Qed.

(** X19: Whatever the requests do, [onUpdate] is called once at the start and
    twice for every server, and the list returned at the end is the one
    passed to the last call. *)
Theorem runSpeedTests_updates (tm : timings) :
  length (snd (run tm)) = (2 * length servers + 1)%nat
  /\ last (snd (run tm)) = Some (runSpeedTests tm).
Proof.
  unfold runSpeedTests, run. split.
  - rewrite loop_log_length, length_seq. cbn [onUpdate snd length app]. lia.
  - apply loop_last. reflexivity.
Qed.

Lemma settle_names tm i r0 :
  server (settle tm i r0) = server r0 /\ location (settle tm i r0) = location r0.
Proof. unfold settle. now destruct (0 <? length (sample tm i))%nat. Qed.

Lemma sample_middle tm i :
  sample tm i <> [] ->
  exists m, sort_numeric (sample tm i) !! (length (sample tm i) / 2)%nat = Some m
            /\ m ∈ sample tm i.
Proof.
  intros Hne.
  assert (length (sample tm i) <> 0%nat) as Hpos
    by (destruct (sample tm i); [contradiction|discriminate]).
  destruct (lookup_lt_is_Some_2 (sort_numeric (sample tm i))
              (length (sample tm i) / 2)%nat) as [m Hm].
  { rewrite sort_numeric_length. apply Nat.div_lt; lia. }
  exists m. split; [exact Hm|].
  rewrite <- (sort_numeric_perm (sample tm i)).
  eapply list_elem_of_lookup_2, Hm.
Qed.

(** X20: At the end there is one entry per server, in the servers' order and
    under their names, and every entry is settled: either done with a
    latency, or in error without one; none is left pending or testing. *)
Theorem runSpeedTests_settled (tm : timings) :
  length (runSpeedTests tm) = length servers
  /\ forall i r,
      runSpeedTests tm !! i = Some r ->
      exists s,
        servers !! i = Some s
        /\ server r = t_server s /\ location r = t_location s
        /\ ((status r = StDone /\ exists m, latency r = Some m)
            \/ (status r = StError /\ latency r = None)).
Proof.
  split.
  - unfold runSpeedTests, run. rewrite loop_length. cbn [onUpdate fst].
    apply length_fmap.
  - intros i r Hr. destruct (runSpeedTests_lookup tm i r Hr) as (s & Hs & ->).
    exists s. split; [exact Hs|].
    destruct (settle_names tm i
      {| server := t_server s; location := t_location s;
         latency := None; status := StPending |}) as [-> ->].
    split; [reflexivity|]. split; [reflexivity|].
    destruct (sample tm i) as [|x l] eqn:Hsample.
    + right. apply settle_none; [reflexivity|exact Hsample].
    + left. assert (sample tm i <> []) as Hne by (rewrite Hsample; discriminate).
      destruct (settle_some tm i
        {| server := t_server s; location := t_location s;
           latency := None; status := StPending |} Hne) as [Hst Hlat].
      split; [exact Hst|].
      destruct (sample_middle tm i Hne) as (m & Hm & _).
      exists m. now rewrite Hlat.
Qed.

Lemma runSpeedTests_settled_witness :
  exists s, servers !! 0%nat = Some s /\ server google_after_two = t_server s.
Proof.
  assert (runSpeedTests two_of_three !! 0%nat = Some google_after_two) as Hr
    by (vm_compute; reflexivity).
  destruct (proj2 (runSpeedTests_settled two_of_three) 0%nat google_after_two Hr)
    as (s & Hs & Hname & _).
  now exists s.
Defined.

Lemma sample_measured tm i x :
  x ∈ sample tm i -> exists j, (j < 3)%nat /\ testLatency (tm i j) = Some x.
Proof.
  unfold sample. change (seq 0 3) with [0; 1; 2]%nat. cbn [fold_left].
  destruct (testLatency (tm i 0%nat)) as [a|] eqn:H0,
           (testLatency (tm i 1%nat)) as [b|] eqn:H1,
           (testLatency (tm i 2%nat)) as [c|] eqn:H2; cbn [app]; intros Hx;
    repeat (apply elem_of_cons in Hx as [->|Hx];
            [first [exists 0%nat; split; [lia|assumption]
                   |exists 1%nat; split; [lia|assumption]
                   |exists 2%nat; split; [lia|assumption]]|]);
    now apply elem_of_nil in Hx.
Qed.

Lemma Math_round_nonneg x : (0 <= x)%Q -> 0 <= Math_round x.
Proof.
  intros Hx. unfold Math_round.
  change 0 with (Qfloor 0). apply Qfloor_resp_le. lra.
Qed.

(** X21: The latency recorded for a server is one of the (at most three)
    measurements taken for that server, and when the clock does not go
    back during a request it is not negative. *)
Theorem runSpeedTests_latency_measured (tm : timings) (i : nat)
    (r : SpeedTestResult) (m : Z) :
  runSpeedTests tm !! i = Some r ->
  latency r = Some m ->
  (exists j, (j < 3)%nat /\ testLatency (tm i j) = Some m)
  /\ (monotonic tm -> 0 <= m).
Proof.
  intros Hr Hm. destruct (runSpeedTests_lookup tm i r Hr) as (s & _ & ->).
  destruct (sample tm i) as [|x l] eqn:Hsample.
  - destruct (settle_none tm i
      {| server := t_server s; location := t_location s;
         latency := None; status := StPending |} eq_refl Hsample) as [_ Hnone].
    congruence.
  - assert (sample tm i <> []) as Hne by (rewrite Hsample; discriminate).
    destruct (settle_some tm i
      {| server := t_server s; location := t_location s;
         latency := None; status := StPending |} Hne) as [_ Hlat].
    destruct (sample_middle tm i Hne) as (m' & Hm' & Hin).
    assert (m' = m) as -> by congruence.
    destruct (sample_measured tm i m Hin) as (j & Hj & Hmeasured).
    split; [now exists j|].
    intros Hmono. unfold testLatency in Hmeasured.
    destruct (finished (tm i j)) as [ended|] eqn:Hfin; [|discriminate].
    injection Hmeasured as <-. apply Math_round_nonneg.
    specialize (Hmono i j ended Hfin). lra.
Qed.

Lemma runSpeedTests_latency_measured_witness :
  (exists j, (j < 3)%nat /\ testLatency (two_of_three 0%nat j) = Some 20)
  /\ 0 <= 20.
Proof.
  assert (runSpeedTests two_of_three !! 0%nat = Some google_after_two) as Hr
    by (vm_compute; reflexivity).
  destruct (runSpeedTests_latency_measured two_of_three 0%nat google_after_two 20
              Hr eq_refl) as [Hmeasured Hnonneg].
  split; [exact Hmeasured|]. apply Hnonneg.
  intros i j ended. unfold two_of_three.
  destruct j as [|[|j]]; cbn [finished started]; intros [= <-]; vm_compute;
    discriminate.
Defined.

End SpeedExtra.

(** *** [parseUserAgent] *)

Module UserAgentExtra.
Import UserAgent StringFacts.

Lemma includes_unfold needle s :
  includes needle s
  = String.prefix needle s
    || match s with
       | EmptyString => false
       | String _ rest => includes needle rest
       end.
Proof. now destruct s. Qed.

(** [includes] finds exactly the occurrences of the needle. *)
Lemma includes_spec needle s :
  includes needle s = true
  <-> exists before after, s = (before ++ needle ++ after)%string.
Proof.
  split.
  - induction s as [|c s IH]; rewrite includes_unfold, orb_true_iff.
    + intros [H|H]; [|discriminate].
      apply prefix_append in H as [rest ->]. now exists "", rest.
    + intros [H|H].
      * apply prefix_append in H as [rest ->]. now exists "", rest.
      * destruct (IH H) as (before & after & ->).
        now exists (String c before), after.
  - intros (before & after & ->).
    induction before as [|c before IH]; rewrite includes_unfold.
    + rewrite append_nil_l, append_prefix. reflexivity.
    + rewrite append_cons, IH. apply orb_true_r.
Qed.

(** A text that contains a needle contains its beginnings. *)
Lemma includes_shorter n m s :
  includes (n ++ m) s = true -> includes n s = true.
Proof.
  rewrite !includes_spec. intros (before & after & ->).
  exists before, (m ++ after)%string. now rewrite append_assoc.
Qed.

(** X22: A user agent that mentions [Chrome/] is reported as Firefox, Edge or
    Chrome and never as Safari or Opera: the Chromium-based Opera, whose
    user agent carries both [Chrome/] and [OPR/], is reported as Chrome. *)
Theorem parseUserAgent_chrome_first (ua : string) :
  includes "Chrome/" ua = true ->
  browser (parseUserAgent ua) = "Firefox"
  \/ browser (parseUserAgent ua) = "Microsoft Edge"
  \/ browser (parseUserAgent ua) = "Chrome".
Proof.
  intros Hchrome. unfold parseUserAgent. cbn [browser]. rewrite Hchrome.
  destruct (includes "Firefox/" ua); [now left|].
  destruct (includes "Edg/" ua); [now right; left|now right; right].
Qed.

Lemma parseUserAgent_chrome_first_witness :
  browser (parseUserAgent ua_opera) = "Chrome"
  /\ includes "OPR/" ua_opera = true.
Proof.
  split; [|vm_compute; reflexivity].
  assert (includes "Chrome/" ua_opera = true) as Hchrome by (vm_compute; reflexivity).
  destruct (parseUserAgent_chrome_first ua_opera Hchrome) as [H|[H|H]];
    [vm_compute in H; discriminate H|vm_compute in H; discriminate H|exact H].
Defined.

(** X23: A user agent that mentions [Linux] is never reported as Android, and
    one that mentions [Mac OS X] never as iOS: the branches for Android
    and iOS come after those for Linux and macOS, so Android phones (whose
    user agents say [Linux; Android]) come out as Linux and iPhones
    ([like Mac OS X]) as macOS. *)
Theorem parseUserAgent_os_order (ua : string) :
  (includes "Linux" ua = true ->
   os (parseUserAgent ua) <> "Android" /\ os (parseUserAgent ua) <> "iOS")
  /\ (includes "Mac OS X" ua = true ->
      os (parseUserAgent ua) <> "Android" /\ os (parseUserAgent ua) <> "iOS"
      /\ os (parseUserAgent ua) <> "Linux").
Proof.
  unfold parseUserAgent. cbn [os]. split; intros H; rewrite H;
    destruct (includes "Windows NT 10" ua), (includes "Windows" ua);
    try destruct (includes "Mac OS X" ua); repeat split; discriminate.
Qed.

Lemma parseUserAgent_os_order_witness :
  (os (parseUserAgent ua_android) <> "Android"
   /\ os (parseUserAgent ua_android) <> "iOS")
  /\ os (parseUserAgent ua_android) = "Linux"
  /\ os (parseUserAgent ua_iphone) = "macOS"
  /\ os (parseUserAgent ua_dalvik) = "Android".
Proof.
  assert (includes "Linux" ua_android = true) as Hlinux by (vm_compute; reflexivity).
  split; [exact (proj1 (parseUserAgent_os_order ua_android) Hlinux)|].
  repeat split; vm_compute; reflexivity.
Defined.

End UserAgentExtra.

(** *** [getWebGLInfo] *)

Module WebGLExtra.
Import Async Js WebGL.

Lemma or_Unknown_truthy v : truthy (js_or v (VStr "Unknown")) = true.
Proof. unfold js_or. now destruct (truthy v) eqn:Hv. Qed.

(** Reading a context either throws or gives an available record with
    truthy strings. *)
Lemma read_info_outcome (gl : context) :
  outcome (read_info gl) = Thrown
  \/ exists info,
       outcome (read_info gl) = Normal info
       /\ available info = true
       /\ truthy (vendor info) = true /\ truthy (renderer info) = true.
Proof.
  unfold read_info, lift.
  destruct (getExtension gl) as [[debugInfo|]|]; cbn; [| |now left].
  - destruct (getParameter gl (UNMASKED_VENDOR_WEBGL debugInfo)) as [v|]; cbn;
      [|now left].
    destruct (getParameter gl (UNMASKED_RENDERER_WEBGL debugInfo)) as [r|]; cbn;
      [|now left].
    right. eexists. repeat split; apply or_Unknown_truthy.
  - destruct (getParameter gl (VENDOR gl)) as [v|]; cbn; [|now left].
    destruct (getParameter gl (RENDERER gl)) as [r|]; cbn; [|now left].
    right. eexists. repeat split; apply or_Unknown_truthy.
Qed.

Lemma guarded_read (gl : context) :
  let info :=
    match outcome (try_catch (bind (ret (Some gl))
                                (fun gl => match gl with
                                           | None => ret not_available
                                           | Some gl => read_info gl
                                           end))
                     (ret not_available)) with
    | Normal info => info
    | Thrown => not_available
    end in
  info = not_available
  \/ (available info = true /\ truthy (vendor info) = true
      /\ truthy (renderer info) = true).
Proof.
  cbn [bind ret]. destruct (read_info_outcome gl) as [H|(info & H & Hinfo)];
    destruct (read_info gl) as [t c]; cbn [outcome snd] in H; subst c; cbn;
    [now left|now right].
Qed.

(** X24: Every result is of one of two kinds: the sentinel record (not
    available, both strings ['Not available']), returned when neither
    context name gives a context or any call throws; or an available
    record whose vendor and renderer are truthy, never empty or null. *)
Theorem getWebGLInfo_kinds (cv : canvas) :
  (available (getWebGLInfo cv) = false /\ getWebGLInfo cv = not_available)
  \/ (available (getWebGLInfo cv) = true
      /\ truthy (vendor (getWebGLInfo cv)) = true
      /\ truthy (renderer (getWebGLInfo cv)) = true).
Proof.
  assert (getWebGLInfo cv = not_available
          \/ (available (getWebGLInfo cv) = true
              /\ truthy (vendor (getWebGLInfo cv)) = true
              /\ truthy (renderer (getWebGLInfo cv)) = true)) as [H|H].
  { unfold getWebGLInfo, getWebGLInfo_body, acquire, lift.
    destruct (webgl cv) as [[gl|]|].
    - apply (guarded_read gl).
    - destruct (experimental_webgl cv) as [[gl|]|].
      + apply (guarded_read gl).
      + now left.
      + now left.
    - now left. }
  - left. now rewrite H.
  - now right.
Qed.

Example getWebGLInfo_experimental :
  getWebGLInfo experimental_only
  = {| vendor := VStr "Unknown"; renderer := VStr "WebKit WebGL"; available := true |}.
Proof. reflexivity. Qed.

Example getWebGLInfo_broken : getWebGLInfo broken_canvas = not_available.
Proof. reflexivity. Qed.

End WebGLExtra.

(** *** [getCookieStatus] *)

Module CookiesExtra.
Import Async Cookies UserAgent UserAgentExtra.

Lemma indexOf_from_found needle : forall s i,
  0 <= i ->
  (indexOf_from needle s i = -1 <-> includes needle s = false)
  /\ (indexOf_from needle s i = -1 \/ i <= indexOf_from needle s i).
Proof.
  induction s as [|c s IH]; intros i Hi; rewrite includes_unfold;
    cbn [indexOf_from]; destruct (String.prefix needle _); cbn [orb].
  - split; [split; [lia|discriminate]|now right].
  - split; [easy|now left].
  - split; [split; [lia|discriminate]|now right].
  - destruct (IH (i + 1) ltac:(lia)) as [Hiff Hge].
    split; [exact Hiff|]. destruct Hge; [now left|right; lia].
Qed.

Lemma indexOf_includes s needle :
  (indexOf s needle =? -1) = negb (includes needle s).
Proof.
  unfold indexOf.
  destruct (indexOf_from_found needle s 0 ltac:(lia)) as [Hiff _].
  destruct (includes needle s).
  - apply Z.eqb_neq. intros H. apply Hiff in H. discriminate.
  - apply Z.eqb_eq. now apply Hiff.
Qed.

(** X25: The third-party guess is always one of ['Likely Enabled'],
    ['Likely Blocked'] and ['Unable to test'] - the initial ['Unknown'] is
    overwritten on every path - and [enabled] is
    [navigator.cookieEnabled], whatever the test does. *)
Theorem getCookieStatus_guess {jar : Type} (cookieEnabled : bool)
    (st : store jar) (j : jar) :
  enabled (fst (getCookieStatus cookieEnabled st j)) = cookieEnabled
  /\ thirdParty (fst (getCookieStatus cookieEnabled st j)) <> "Unknown"
  /\ (thirdParty (fst (getCookieStatus cookieEnabled st j)) = "Likely Enabled"
      \/ thirdParty (fst (getCookieStatus cookieEnabled st j)) = "Likely Blocked"
      \/ thirdParty (fst (getCookieStatus cookieEnabled st j)) = "Unable to test").
Proof.
  unfold getCookieStatus.
  destruct (assign st _ j) as [j1|]; [|cbn; repeat split; [discriminate|auto]].
  destruct (cookie st j1) as [c|]; [|cbn; repeat split; [discriminate|auto]].
  destruct (negb (indexOf c "testcookie" =? -1));
    [|cbn; repeat split; [discriminate|auto]].
  destruct (assign st _ j1) as [j2|]; cbn; repeat split; try discriminate; auto.
Qed.

(** X26: When no access to [document.cookie] throws, the guess is
    ['Likely Enabled'] exactly when the cookie string read after the
    write contains the text [testcookie] anywhere - also inside the name
    or value of another cookie, and also when the write was dropped - and
    ['Likely Blocked'] otherwise; the deleting assignment is made only in
    the first case. *)
Theorem getCookieStatus_substring {jar : Type} (cookieEnabled : bool)
    (st : store jar) (j j1 j2 : jar) (c : string) :
  assign st "testcookie=1; SameSite=None; Secure" j = Normal j1 ->
  cookie st j1 = Normal c ->
  assign st "testcookie=; expires=Thu, 01 Jan 1970 00:00:00 UTC;" j1 = Normal j2 ->
  getCookieStatus cookieEnabled st j
  = if includes "testcookie" c
    then ({| enabled := cookieEnabled; thirdParty := "Likely Enabled" |}, j2)
    else ({| enabled := cookieEnabled; thirdParty := "Likely Blocked" |}, j1).
Proof.
  intros Hset Hread Hdel. unfold getCookieStatus.
  rewrite Hset, Hread, indexOf_includes, negb_involutive.
  destruct (includes "testcookie" c); [now rewrite Hdel|reflexivity].
Qed.

Lemma getCookieStatus_substring_witness :
  getCookieStatus true read_only "mytestcookie2=abc"
  = ({| enabled := true; thirdParty := "Likely Enabled" |}, "mytestcookie2=abc").
Proof.
  apply (getCookieStatus_substring true read_only
           "mytestcookie2=abc" "mytestcookie2=abc" "mytestcookie2=abc"
           "mytestcookie2=abc"); reflexivity.
Defined.

End CookiesExtra.

(** *** More on the geolocation probe and the WebRTC probe *)

Module ProbesExtra.
Import Async Js Net GeoIP AsyncFacts GeoIPFacts WebRTC WebRTCFacts WebRTCExtra Shapes.

Lemma parse_ipapi_throws data :
  outcome (parse_ipapi data) = Thrown <-> data = VNull \/ data = VUndefined.
Proof.
  destruct data; cbn; split; intros H; try discriminate; auto;
    destruct H as [H|H]; discriminate.
Qed.

Lemma parse_freeipapi_throws data :
  outcome (parse_freeipapi data) = Thrown <-> data = VNull \/ data = VUndefined.
Proof.
  destruct data; cbn; split; intros H; try discriminate; auto;
    destruct H as [H|H]; discriminate.
Qed.

Lemma parse_ipwho_throws data :
  outcome (parse_ipwho data) = Thrown <-> data = VNull \/ data = VUndefined.
Proof.
  destruct data as [| | | | | |props]; cbn;
    try (split; intros H; try discriminate; auto;
         destruct H as [H|H]; discriminate).
  destruct (own_prop props "connection"), (own_prop props "timezone"); cbn;
    split; intros H; try discriminate; destruct H as [H|H]; discriminate.
Qed.

(** X6: The three response mappers throw on exactly one kind of body, JSON
    [null]: any other value - an object with keys missing, with
    [connection] or [timezone] absent or not an object, an array, a
    string, a number - is mapped to a record, missing parts becoming
    ['Unknown'] or 0. *)
Theorem mappers_throw_on_null (a : api) (data : jsval) :
  a ∈ apis ->
  (outcome (parse a data) = Thrown <-> data = VNull \/ data = VUndefined).
Proof.
  unfold apis. intros Hin.
  apply elem_of_cons in Hin as [->|Hin]; [apply parse_ipapi_throws|].
  apply elem_of_cons in Hin as [->|Hin]; [apply parse_freeipapi_throws|].
  apply list_elem_of_singleton in Hin as ->. apply parse_ipwho_throws.
Qed.

Lemma mappers_throw_on_null_witness :
  outcome (parse ipwho VNull) = Thrown
  /\ outcome (parse ipwho (VObj [("connection", VNull)])) <> Thrown.
Proof.
  assert (ipwho ∈ apis) as Hin by (unfold apis; repeat constructor).
  split.
  - apply (proj2 (mappers_throw_on_null ipwho VNull Hin)). now left.
  - intros H.
    apply (proj1 (mappers_throw_on_null ipwho (VObj [("connection", VNull)]) Hin))
      in H.
    destruct H as [H|H]; discriminate H.
Defined.

Lemma old_parse_ip_api_silent data : trace (old_parse_ip_api data) = [].
Proof. now destruct data. Qed.

(** X9: The older version does not throw either, and it asks freeipapi.com
    first and ip-api.com at most once, after it. *)
Theorem getIPInfo_old_never_throws (net : network) :
  exists res,
    outcome (getIPInfo_old net) = Normal res
    /\ (requests (trace (getIPInfo_old net)) = ["https://freeipapi.com/api/json"]
        \/ requests (trace (getIPInfo_old net))
           = ["https://freeipapi.com/api/json"; "http://ip-api.com/json"]).
Proof.
  assert (forall u parse_u,
            (forall data, trace (parse_u data) = []) ->
            requests (trace (old_attempt net u parse_u)) = [u]
            /\ (outcome (old_attempt net u parse_u) = Thrown
                \/ exists v, outcome (old_attempt net u parse_u) = Normal v))
    as Hattempt.
  { intros u parse_u Hsilent. unfold old_attempt, fetch, json.
    destruct (net u) as [|[okr bodyr]]; cbn; [now split; [|left]|].
    destruct okr; cbn; [|split; [reflexivity|right; eauto]].
    destruct bodyr as [data|]; cbn; [|now split; [|left]].
    specialize (Hsilent data).
    destruct (parse_u data) as [t [r|]]; cbn in *; subst t; cbn;
      split; try reflexivity; [right; eauto|now left]. }
  unfold getIPInfo_old.
  destruct (Hattempt "https://freeipapi.com/api/json" old_parse_freeipapi
              parse_freeipapi_silent) as [Hreq1 Hout1].
  destruct (Hattempt "http://ip-api.com/json" old_parse_ip_api
              old_parse_ip_api_silent) as [Hreq2 Hout2].
  destruct (old_attempt net "https://freeipapi.com/api/json" old_parse_freeipapi)
    as [t1 c1].
  destruct (old_attempt net "http://ip-api.com/json" old_parse_ip_api) as [t2 c2].
  cbn [trace outcome fst snd] in *.
  destruct Hout1 as [->|[v1 ->]].
  - destruct Hout2 as [->|[[v2|] ->]]; cbn -[requests];
      (eexists; split; [reflexivity|]); right;
      now rewrite ?app_nil_r, requests_app, Hreq1, Hreq2.
  - destruct v1 as [v1|]; cbn -[requests];
      (eexists; split; [reflexivity|]); left;
      now rewrite ?app_nil_r.
Qed.

Lemma on_candidate_adds g c ip :
  ip_match c = Some ip -> String.prefix "0." ip = false ->
  ip ∈ ips (on_candidate g c).
Proof.
  intros Hm Hz. unfold on_candidate. rewrite Hm, Hz.
  destruct (String.prefix "192.168." ip || String.prefix "10." ip
            || String.prefix "172." ip); cbn [negb ips]; apply set_add_new.
Qed.

Lemma on_candidate_keeps g c x : x ∈ ips g -> x ∈ ips (on_candidate g c).
Proof.
  intros Hx. unfold on_candidate.
  destruct (ip_match c) as [ip|]; [|exact Hx].
  destruct (String.prefix "192.168." ip || String.prefix "10." ip
            || String.prefix "172." ip); cbn [ips]; [now apply set_add_old|].
  destruct (negb (String.prefix "0." ip)); cbn [ips];
    [now apply set_add_old|exact Hx].
Qed.

Lemma gather_keeps events : forall g x,
  x ∈ ips g -> x ∈ localIPs (gather g events).
Proof.
  induction events as [|[c|] rest IH]; intros g x Hx;
    cbn [gather finalize localIPs]; [exact Hx| |exact Hx].
  apply IH. now apply on_candidate_keeps.
Qed.

Lemma gather_complete before : forall g after c ip,
  EndOfCandidates ∉ before ->
  Candidate c ∈ before ->
  ip_match c = Some ip -> String.prefix "0." ip = false ->
  ip ∈ localIPs (gather g (before ++ after)).
Proof.
  induction before as [|ev rest IH]; intros g after c ip Hend Hin Hm Hz.
  - now apply elem_of_nil in Hin.
  - apply not_elem_of_cons in Hend as [Hev Hend].
    destruct ev as [c0|]; [|congruence].
    cbn [app gather].
    apply elem_of_cons in Hin as [[= ->]|Hin].
    + apply gather_keeps. now apply on_candidate_adds.
    + now apply IH with c.
Qed.

(** X11: Every address read off a candidate delivered before the null
    candidate is listed in [localIPs], unless it starts with ["0."] -
    private or not; together with soundness, [localIPs] holds exactly the
    addresses matched while gathering. *)
Theorem getWebRTCInfo_localIPs_complete (b : browser)
    (before after : list ice_event) (c ip : string) :
  has_RTCPeerConnection b = true ->
  setup_throws b = false ->
  ice b = before ++ after ->
  EndOfCandidates ∉ before ->
  Candidate c ∈ before ->
  ip_match c = Some ip ->
  String.prefix "0." ip = false ->
  ip ∈ localIPs (getWebRTCInfo b).
Proof.
  intros Hcap Hsetup Hice Hend Hin Hm Hz.
  unfold getWebRTCInfo. rewrite Hcap, Hsetup, Hice. cbn [negb].
  now apply gather_complete with c.
Qed.

Lemma getWebRTCInfo_localIPs_complete_witness :
  "172.217.0.1" ∈ localIPs (getWebRTCInfo browser_172).
Proof.
  apply (getWebRTCInfo_localIPs_complete browser_172
           [Candidate "candidate:3 1 udp 1686052607 172.217.0.1 3478 typ srflx"]
           [EndOfCandidates;
            Candidate "candidate:4 1 udp 1686052607 203.0.113.7 3478 typ srflx"]
           "candidate:3 1 udp 1686052607 172.217.0.1 3478 typ srflx"
           "172.217.0.1").
  - reflexivity.
  - reflexivity.
  - reflexivity.
  - intros H. no_such_event H.
  - constructor.
  - reflexivity.
  - reflexivity.
Defined.

End ProbesExtra.
